(** * mailcraft-llm: the string handling and the action handlers of [app.py]

    A shallow embedding of [src/app.py].  Python strings are sequences of
    Unicode code points; they are modelled as lists of code points ([N]).
    The builtins the program uses ([str.strip], [str.splitlines],
    [str.startswith], [str.replace] with count 1, [str.join], [len]) are
    modelled after CPython's behaviour.  The Streamlit session state is a
    finite map from key names to strings, and the handlers pass an explicit
    world around that also records the warnings, the errors and the calls
    made to the model. *)

From Stdlib Require Import NArith List String Ascii Bool Lia.
From stdpp Require Import gmap strings list.

Local Open Scope N_scope.

(** ** Python strings *)

Module Py.

Definition char : Type := N.
Definition str : Type := list N.

(** Decoding of a UTF-8 literal of this file into code points, so that the
    literals of the program can be written as they are in the source. *)
Definition byte_of (a : ascii) : N := N_of_ascii a.

Definition cont (b : N) : N := N.land b 0x3F.

Fixpoint utf8 (bs : list N) : str :=
  match bs with
  | [] => []
  | b0 :: t0 =>
      if b0 <? 0x80 then b0 :: utf8 t0
      else if b0 <? 0xE0 then
        match t0 with
        | b1 :: t1 => N.lor (N.shiftl (N.land b0 0x1F) 6) (cont b1) :: utf8 t1
        | _ => []
        end
      else if b0 <? 0xF0 then
        match t0 with
        | b1 :: b2 :: t2 =>
            N.lor (N.shiftl (N.land b0 0x0F) 12)
              (N.lor (N.shiftl (cont b1) 6) (cont b2)) :: utf8 t2
        | _ => []
        end
      else
        match t0 with
        | b1 :: b2 :: b3 :: t3 =>
            N.lor (N.shiftl (N.land b0 0x07) 18)
              (N.lor (N.shiftl (cont b1) 12)
                 (N.lor (N.shiftl (cont b2) 6) (cont b3))) :: utf8 t3
        | _ => []
        end
  end.

Definition lit (s : string) : str :=
  utf8 (List.map byte_of (list_ascii_of_string s)).

(** [str.isspace] on one code point (CPython's [_PyUnicode_IsWhitespace]). *)
Definition isspace (c : char) : bool :=
  ((0x09 <=? c) && (c <=? 0x0D)) || ((0x1C <=? c) && (c <=? 0x20))
  || (c =? 0x85) || (c =? 0xA0) || (c =? 0x1680)
  || ((0x2000 <=? c) && (c <=? 0x200A))
  || (c =? 0x2028) || (c =? 0x2029) || (c =? 0x202F) || (c =? 0x205F)
  || (c =? 0x3000).

(** The line boundaries of [str.splitlines] ([_PyUnicode_IsLinebreak]). *)
Definition islinebreak (c : char) : bool :=
  ((0x0A <=? c) && (c <=? 0x0D)) || ((0x1C <=? c) && (c <=? 0x1E))
  || (c =? 0x85) || (c =? 0x2028) || (c =? 0x2029).

Definition CR : char := 0x0D.
Definition LF : char := 0x0A.

Fixpoint lstrip (s : str) : str :=
  match s with
  | [] => []
  | c :: s' => if isspace c then lstrip s' else s
  end.

Definition rstrip (s : str) : str := rev (lstrip (rev s)).

(** [s.strip()] *)
Definition strip (s : str) : str := rstrip (lstrip s).

(** [s.splitlines()]: the text is cut at every line boundary, a carriage
    return followed by a line feed counts as one boundary, the boundaries
    are dropped, and a boundary at the very end opens no further line. *)
Fixpoint splitlines (s : str) : list str :=
  match s with
  | [] => []
  | c :: s' =>
      if islinebreak c then
        [] :: (if c =? CR
               then match s' with
                    | d :: s'' => if d =? LF then splitlines s'' else splitlines s'
                    | [] => splitlines s'
                    end
               else splitlines s')
      else
        match splitlines s' with
        | [] => [[c]]
        | l :: ls => (c :: l) :: ls
        end
  end.

(** [s.startswith(prefix)] *)
Fixpoint startswith (prefix s : str) : bool :=
  match prefix, s with
  | [], _ => true
  | _ :: _, [] => false
  | p :: prefix', c :: s' => (p =? c) && startswith prefix' s'
  end.

(** [s.startswith(prefixes)] for a tuple of prefixes *)
Definition startswith_any (prefixes : list str) (s : str) : bool :=
  existsb (fun p => startswith p s) prefixes.

(** [s.replace(old, new, 1)]: the leftmost occurrence of [old] is replaced. *)
Fixpoint replace1 (old new s : str) : str :=
  if startswith old s then new ++ drop (length old) s
  else match s with
       | [] => []
       | c :: s' => c :: replace1 old new s'
       end.

(** [sep.join(parts)] *)
Fixpoint join (sep : str) (parts : list str) : str :=
  match parts with
  | [] => []
  | [p] => p
  | p :: ps => p ++ sep ++ join sep ps
  end.

(** Truth value of a string: [not s] holds of the empty string only. *)
Definition not_ (s : str) : bool :=
  match s with [] => true | _ => false end.

End Py.

Import Py.

(** ** The program *)

Module App.

Definition nl : str := [LF].

(** *** The world the handlers run in

    [session_state] is [st.session_state], [environ] is the process
    environment read by [os.getenv]; [warnings] and [errors] collect what
    [st.warning] and [st.error] show to the user, and [llm_calls] the
    prompts that were handed to the model. *)
Record World : Type := mkWorld {
  session_state : gmap string str;
  environ : gmap string str;
  warnings : list str;
  errors : list str;
  llm_calls : list str
}.

(** A computation returns a value or raises an exception, and leaves a
    world behind in both cases. *)
Inductive result (A : Type) : Type :=
| Ok (a : A)
| Raise.
Arguments Ok {A} a.
Arguments Raise {A}.

Definition M (A : Type) : Type := World -> result A * World.

Definition ret {A} (a : A) : M A := fun w => (Ok a, w).

Definition bind {A B} (m : M A) (k : A -> M B) : M B :=
  fun w => match m w with
           | (Ok a, w') => k a w'
           | (Raise, w') => (Raise, w')
           end.

(** [try: m  except Exception: h] *)
Definition try_except {A} (m : M A) (h : M A) : M A :=
  fun w => match m w with
           | (Ok a, w') => (Ok a, w')
           | (Raise, w') => h w'
           end.

Notation "x <- m ;; k" := (bind m (fun x => k))
  (at level 100, m at next level, right associativity).
Notation "m ;;; k" := (bind m (fun _ => k))
  (at level 100, right associativity).

(** The world a computation leaves behind. *)
Definition exec {A} (m : M A) (w : World) : World := snd (m w).

Definition st_warning (msg : str) : M unit :=
  fun w => (Ok tt, mkWorld (session_state w) (environ w)
                     (warnings w ++ [msg]) (errors w) (llm_calls w)).

Definition st_error (msg : str) : M unit :=
  fun w => (Ok tt, mkWorld (session_state w) (environ w)
                     (warnings w) (errors w ++ [msg]) (llm_calls w)).

(** [os.getenv(name)] *)
Definition getenv (name : string) : M (option str) :=
  fun w => (Ok (environ w !! name), w).

(** [st.session_state[key]]: raises [KeyError] when the key is absent. *)
Definition getitem (key : string) : M str :=
  fun w => match session_state w !! key with
           | Some v => (Ok v, w)
           | None => (Raise, w)
           end.

(** [st.session_state.get(key, default)] *)
Definition get (key : string) (fallback : str) : M str :=
  fun w => (Ok (default fallback (session_state w !! key)), w).

(** [st.session_state[key] = value] *)
Definition setitem (key : string) (value : str) : M unit :=
  fun w => (Ok tt, mkWorld (<[key := value]> (session_state w)) (environ w)
                     (warnings w) (errors w) (llm_calls w)).

(** Truth value of what [os.getenv] returns: [None] and the empty string
    are false. *)
Definition falsy (v : option str) : bool :=
  match v with
  | None => true
  | Some s => not_ s
  end.

(** *** The form's defaults *)

Definition RELATIONSHIPS : list str :=
  [lit "取引先"; lit "社内（上司）"; lit "社内（同僚）"; lit "お客様"].
Definition PURPOSES : list str :=
  [lit "依頼"; lit "お礼"; lit "謝罪"; lit "日程調整"; lit "質問"; lit "報告"].
Definition TONES : list str := [lit "丁寧"; lit "ふつう"; lit "カジュアル"].

Definition defaults : list (string * str) :=
  [ ("relationship", hd [] RELATIONSHIPS);
    ("purpose", hd [] PURPOSES);
    ("tone", hd [] TONES);
    ("required_info", []);
    ("signature", []);
    ("subject", []);
    ("body", []) ]%string.

(** Every key that is not yet in the session state gets its default. *)
Definition init_session_state : M unit :=
  fun w =>
    (Ok tt,
     mkWorld
       (fold_left (fun m kv => match m !! fst kv with
                               | Some _ => m
                               | None => <[fst kv := snd kv]> m
                               end) defaults (session_state w))
       (environ w) (warnings w) (errors w) (llm_calls w)).

(** *** Validation *)

Definition msg_empty : str := lit "必須情報を入力してください。".
Definition msg_too_short : str :=
  lit "必須情報が短すぎます。10文字以上入力してください。".
Definition msg_too_long : str :=
  lit "必須情報が長すぎます。4000文字以内にしてください。".

Definition validate_inputs (required_info : str) : M bool :=
  if not_ (strip required_info) then
    st_warning msg_empty ;;; ret false
  else if (length required_info <? 10)%nat then
    st_warning msg_too_short ;;; ret false
  else if (4000 <? length required_info)%nat then
    st_warning msg_too_long ;;; ret false
  else ret true.

(** *** Bullet normalisation *)

Definition bullet : str := lit "- ".

(** The loop over the stripped lines, with [normalized] in order. *)
Fixpoint bullets (lines : list str) : list str :=
  match lines with
  | [] => []
  | line :: rest =>
      if not_ line then bullets rest
      else if startswith bullet line then line :: bullets rest
      else (bullet ++ line) :: bullets rest
  end.

Definition normalize_bullets (text : str) : str :=
  join nl (bullets (List.map strip (splitlines text))).

(** *** Prompts *)

Definition build_prompt (relationship purpose tone required_info signature : str)
  : str :=
  concat
    [ lit "あなたはビジネスメール作成アシスタントです。";
      lit "以下の条件に基づき日本語のメールを作成してください。";
      lit "必ず次の形式で出力してください。"; nl; nl;
      lit "件名：..."; nl;
      lit "本文："; nl;
      lit "..."; nl; nl;
      lit "宛先の関係性: "; relationship; nl;
      lit "目的: "; purpose; nl;
      lit "トーン: "; tone; nl;
      lit "必須情報（箇条書き）:"; nl;
      required_info; nl;
      lit "署名: "; (if not_ signature then lit "（なし）" else signature); nl ].

Definition build_rewrite_prompt (subject body instruction : str) : str :=
  concat
    [ lit "あなたはビジネスメールの編集アシスタントです。";
      lit "以下のメール本文を指示に従って書き換えてください。";
      lit "件名は基本維持し、明らかに不自然なら軽く整える程度にしてください。";
      lit "必ず次の形式で出力してください。"; nl; nl;
      lit "件名：..."; nl;
      lit "本文："; nl;
      lit "..."; nl; nl;
      lit "指示: "; instruction; nl;
      lit "件名: "; subject; nl;
      lit "本文:"; nl;
      body; nl ].

(** *** Parsing the reply *)

Definition subject_prefixes : list str := [lit "件名："; lit "件名:"].
Definition body_prefixes : list str := [lit "本文："; lit "本文:"].
Definition placeholder : str := lit "（自動生成）".

(** The inner loop over [subject_prefixes]: the first prefix the line
    starts with is removed; [subject] keeps its value if none matches. *)
Fixpoint take_subject (prefixes : list str) (line subject : str) : str :=
  match prefixes with
  | [] => subject
  | prefix :: prefixes' =>
      if startswith prefix line then strip (replace1 prefix [] line)
      else take_subject prefixes' line subject
  end.

(** The loop [for idx, line in enumerate(lines)]; [rest] is what is left
    of [lines] from index [idx] on.  It returns [subject] and [body] as
    they are when the loop is left. *)
Fixpoint scan (lines : list str) (idx : nat) (rest : list str)
    (subject body : str) : str * str :=
  match rest with
  | [] => (subject, body)
  | line :: rest' =>
      if startswith_any subject_prefixes line then
        scan lines (S idx) rest' (take_subject subject_prefixes line subject) body
      else if startswith_any body_prefixes line then
        (subject, strip (join nl (drop (idx + 1) lines)))
      else scan lines (S idx) rest' subject body
  end.

(** The candidates: [subject] and [body] after the loop. *)
Definition candidates (text : str) : str * str :=
  let lines := List.map strip (splitlines text) in
  scan lines 0 lines [] [].

Definition parse_output (text : str) : str * str :=
  let '(subject, body) := candidates text in
  if not_ subject then (placeholder, strip text)
  else if not_ body then (subject, strip text)
  else (subject, body).

(** *** The handlers

    [st.spinner] only draws a busy indicator and is left out.  The client
    behind [get_llm] is the section variable [invoke]. *)

Definition msg_no_key : str :=
  lit "OPENAI_API_KEY が未設定です。.env を作成してください。".
Definition msg_generate_failed : str :=
  lit "生成に失敗しました。入力を短くして再試行してください。".
Definition msg_empty_body : str := lit "本文が空のため再生成できません。".
Definition msg_rewrite_failed : str :=
  lit "再生成に失敗しました。入力を短くして再試行してください。".

Section Gateway.

(** The model service: the reply to a prompt, or [None] when the call
    raises (network, authentication or service failure). *)
Variable invoke : str -> option str.

(** [call_llm]: every call is recorded in [llm_calls]. *)
Definition call_llm (prompt : str) : M str :=
  fun w =>
    let w' := mkWorld (session_state w) (environ w) (warnings w) (errors w)
                (llm_calls w ++ [prompt]) in
    match invoke prompt with
    | Some content => (Ok content, w')
    | None => (Raise, w')
    end.

Definition generate_with_llm : M (str * str) :=
  relationship <- getitem "relationship" ;;
  purpose <- getitem "purpose" ;;
  tone <- getitem "tone" ;;
  required_info <- getitem "required_info" ;;
  signature <- getitem "signature" ;;
  let required_info := strip required_info in
  let signature := strip signature in
  let normalized_required_info := normalize_bullets required_info in
  let prompt :=
    build_prompt relationship purpose tone normalized_required_info signature in
  output <- call_llm prompt ;;
  ret (parse_output output).

Definition handle_generate : M unit :=
  key <- getenv "OPENAI_API_KEY" ;;
  if falsy key then st_warning msg_no_key
  else
    required_info <- getitem "required_info" ;;
    valid <- validate_inputs required_info ;;
    if negb valid then ret tt
    else
      r <- try_except (p <- generate_with_llm ;; ret (Some p))
                      (st_error msg_generate_failed ;;; ret None) ;;
      match r with
      | None => ret tt
      | Some (subject, body) =>
          setitem "subject" subject ;;; setitem "body" body
      end.

Definition handle_rewrite (instruction : str) : M unit :=
  key <- getenv "OPENAI_API_KEY" ;;
  if falsy key then st_warning msg_no_key
  else
    subject <- get "subject" [] ;;
    body <- get "body" [] ;;
    let subject := strip subject in
    let body := strip body in
    if not_ body then st_warning msg_empty_body
    else
      let prompt := build_rewrite_prompt subject body instruction in
      r <- try_except (output <- call_llm prompt ;; ret (Some (parse_output output)))
                      (st_error msg_rewrite_failed ;;; ret None) ;;
      match r with
      | None => ret tt
      | Some (new_subject, new_body) =>
          (if not_ new_subject then ret tt else setitem "subject" new_subject) ;;;
          setitem "body" new_body
      end.

End Gateway.

(** *** Clearing the form

    [handle_clear] deletes the seven keys that are present and ends with
    [st.rerun()]. *)

Definition CLEAR_KEYS : list string :=
  [ "relationship"; "purpose"; "tone"; "required_info"; "signature";
    "subject"; "body" ]%string.

(** [key in st.session_state] *)
Definition contains (key : string) : M bool :=
  fun w => match session_state w !! key with
           | Some _ => (Ok true, w)
           | None => (Ok false, w)
           end.

(** [del st.session_state[key]]: raises [KeyError] when the key is absent. *)
Definition delitem (key : string) : M unit :=
  fun w => match session_state w !! key with
           | Some _ => (Ok tt, mkWorld (delete key (session_state w)) (environ w)
                                 (warnings w) (errors w) (llm_calls w))
           | None => (Raise, w)
           end.

(** The loop [for key in keys]. *)
Fixpoint clear_keys (keys : list string) : M unit :=
  match keys with
  | [] => ret tt
  | key :: keys' =>
      present <- contains key ;;
      (if present then delitem key else ret tt) ;;;
      clear_keys keys'
  end.

(** [st.rerun()] does not return: it leaves by Streamlit's
    [RerunException], which asks for the script to be run again from the
    top ([main], hence [init_session_state]).  It writes nothing itself;
    what Streamlit shows when it catches the exception around an
    [on_click] callback is shown by Streamlit, after the callback has been
    left.  No [try] of the program encloses a call of it. *)
Definition st_rerun : M unit := fun w => (Raise, w).

Definition handle_clear : M unit :=
  clear_keys CLEAR_KEYS ;;; st_rerun.

End App.

Import App.

(** ** Notions used in the statements *)

(** A string whose first character, if any, is not white space. *)
Definition head_ok (s : str) : bool :=
  match s with
  | [] => true
  | c :: _ => negb (isspace c)
  end.

(** What [strip] leaves unchanged. *)
Definition trimmed (s : str) : Prop :=
  head_ok s = true /\ head_ok (rev s) = true.

(** No line boundary occurs in the string. *)
Definition nolb (s : str) : Prop := Forall (fun c => islinebreak c = false) s.

(** What every line of a normalised text looks like. *)
Definition bullet_line (l : str) : Prop :=
  nolb l /\ trimmed l /\ not_ l = false /\ startswith bullet l = true.

Definition is_subject_line (l : str) : bool :=
  startswith_any subject_prefixes l.

Definition is_body_line (l : str) : bool :=
  startswith_any body_prefixes l.

(** The stripped lines of a reply, as [parse_output] computes them. *)
Definition lines_of (text : str) : list str :=
  List.map strip (splitlines text).

(** The lines in front of the first line that starts with a body marker. *)
Fixpoint before_body (lines : list str) : list str :=
  match lines with
  | [] => []
  | l :: lines' => if is_body_line l then [] else l :: before_body lines'
  end.

(** One turn of the loop as far as [subject] is concerned, and [subject]
    after a run of lines none of which starts with a body marker. *)
Definition subject_step (s l : str) : str :=
  if is_subject_line l then take_subject subject_prefixes l s else s.

Definition subject_after (pre : list str) (s : str) : str :=
  fold_left subject_step pre s.

(** The lines behind the first line that starts with a body marker. *)
Fixpoint after_body (lines : list str) : option (list str) :=
  match lines with
  | [] => None
  | l :: lines' => if is_body_line l then Some lines' else after_body lines'
  end.

(** The claim that the subject comes from the first line that starts with
    a subject marker, as the specification words it. *)
Definition subject_from_first_marker_line (raw : str) : Prop :=
  forall l, List.find is_subject_line (lines_of raw) = Some l ->
  forall p t, p ∈ subject_prefixes -> l = p ++ t ->
  fst (parse_output raw) = strip t.

(** The resolution policy as the specification words it, with a candidate
    found as soon as its marker line is there: without a subject-marker
    line the placeholder and the whole stripped reply; with one, the text
    behind its marker, together with the whole stripped reply when no line
    starts with a body marker and with the lines behind the body-marker
    line otherwise. *)
Definition resolution_by_marker_lines (raw : str) : Prop :=
  (forallb (fun l => negb (is_subject_line l)) (lines_of raw) = true ->
   parse_output raw = (placeholder, strip raw))
  /\ (forall p t, p ∈ subject_prefixes ->
       List.find is_subject_line (lines_of raw) = Some (p ++ t) ->
       parse_output raw =
         match after_body (lines_of raw) with
         | None => (strip t, strip raw)
         | Some tl => (strip t, strip (join nl tl))
         end).

(** The claim that a non-empty reply gives a non-empty body, as the
    specification words it. *)
Definition body_nonempty_for_nonempty_raw (raw : str) : Prop :=
  raw <> [] -> snd (parse_output raw) <> [].

(** The three ways validation fails, and the warning shown for each. *)
Inductive ValidationError : Type := Empty | TooShort | TooLong.

Definition warning_of (e : ValidationError) : str :=
  match e with
  | Empty => msg_empty
  | TooShort => msg_too_short
  | TooLong => msg_too_long
  end.

(** Validation succeeds: [True] is returned and nothing is shown. *)
Definition succeeds (s : str) (w : World) : Prop :=
  validate_inputs s w = (Ok true, w).

(** Validation fails with [e]: [False] is returned after the warning of
    [e] has been shown. *)
Definition fails_with (e : ValidationError) (s : str) (w : World) : Prop :=
  validate_inputs s w = (st_warning (warning_of e) ;;; ret false) w.

(** The rules of the specification, read on the stripped length. *)
Definition validate_on_trimmed_length (s : str) (w : World) : Prop :=
  ((10 <= length (strip s) <= 4000)%nat -> succeeds s w)
  /\ (length (strip s) = 0%nat -> fails_with Empty s w)
  /\ ((1 <= length (strip s) <= 9)%nat -> fails_with TooShort s w)
  /\ ((4000 < length s)%nat -> fails_with TooLong s w).

Definition empty_world : World := mkWorld ∅ ∅ [] [] [].

Definition API_KEY : string := "OPENAI_API_KEY".

(** The stored subject and body as [handle_rewrite] reads them, and the
    prompt it sends. *)
Definition current_subject (w : World) : str :=
  strip (default [] (session_state w !! "subject")).

Definition current_body (w : World) : str :=
  strip (default [] (session_state w !! "body")).

Abbreviation rewrite_prompt instruction w :=
  (build_rewrite_prompt (current_subject w) (current_body w) instruction)
  (only parsing).

Definition warned (msg : str) (w : World) : World :=
  mkWorld (session_state w) (environ w) (warnings w ++ [msg]) (errors w)
    (llm_calls w).

(** A session with the credential set and the form's defaults. *)
Definition fresh_session : World :=
  exec init_session_state
    (mkWorld ∅ {[ API_KEY := lit "sk-test" ]} [] [] []).

(** The same without the credential. *)
Definition session_without_key : World :=
  exec init_session_state empty_world.

(** The session of the specification's scenario: the subject is "Meeting",
    the body "...". *)
Definition meeting_session : World :=
  exec (setitem "subject" (lit "Meeting") ;;; setitem "body" (lit "..."))
    fresh_session.

(** A reply that has a body marker and no subject line. *)
Definition reply_without_subject : str :=
  join nl [lit "本文："; lit "Short note"].

(** The session state the defaults describe. *)
Definition default_state : gmap string str := list_to_map defaults.

(** The world after one more prompt has been handed to the model. *)
Definition called (prompt : str) (w : World) : World :=
  mkWorld (session_state w) (environ w) (warnings w) (errors w)
    (llm_calls w ++ [prompt]).

(** The world after an error has been shown. *)
Definition failed (msg : str) (w : World) : World :=
  mkWorld (session_state w) (environ w) (warnings w) (errors w ++ [msg])
    (llm_calls w).

(** The world after a parsed reply has been stored. *)
Definition stored (p : str * str) (w : World) : World :=
  mkWorld (<["body" := snd p]> (<["subject" := fst p]> (session_state w)))
    (environ w) (warnings w) (errors w) (llm_calls w).

(** The prompt [generate_with_llm] builds from the five fields it reads;
    [None] when one of them is missing. *)
Definition generate_prompt (w : World) : option str :=
  match session_state w !! "relationship" with
  | None => None
  | Some relationship =>
  match session_state w !! "purpose" with
  | None => None
  | Some purpose =>
  match session_state w !! "tone" with
  | None => None
  | Some tone =>
  match session_state w !! "required_info" with
  | None => None
  | Some required_info =>
  match session_state w !! "signature" with
  | None => None
  | Some signature =>
      Some (build_prompt relationship purpose tone
              (normalize_bullets (strip required_info)) (strip signature))
  end end end end end.

(** A string made of white space only. *)
Definition allspace (s : str) : Prop := Forall (fun c => isspace c = true) s.

(** The line the loop of [normalize_bullets] appends for a non-empty
    stripped line. *)
Definition bulleted (l : str) : str :=
  if startswith bullet l then l else bullet ++ l.

(** A session whose required info is too short to pass validation. *)
Definition short_info_session : World :=
  exec (setitem "required_info" (lit "abc")) fresh_session.

(** A session whose required info passes validation. *)
Definition valid_info_session : World :=
  exec (setitem "required_info" (lit "send the report by Friday"))
    fresh_session.

(** A session whose stored body is white space only. *)
Definition blank_body_session : World :=
  exec (setitem "subject" (lit "Meeting") ;;; setitem "body" (lit "   "))
    fresh_session.

(** ** Facts about the string operations *)

Section StringFacts.

Implicit Types (s t p : str) (c : char) (ls : list str).

Example lit_subject_marker : lit "件名：" = [0x4EF6; 0x540D; 0xFF1A].
Proof. reflexivity. Qed.

Example lit_ascii : lit "- a" = [0x2D; 0x20; 0x61].
Proof. reflexivity. Qed.

Example splitlines_crlf :
  splitlines (lit "a" ++ [CR; LF] ++ lit "b" ++ [LF]) = [lit "a"; lit "b"].
Proof. reflexivity. Qed.

Lemma lstrip_head_ok s : head_ok (lstrip s) = true.
Proof.
  induction s as [|c s IH]; simpl; [done|].
  destruct (isspace c) eqn:E; [done|]. simpl. by rewrite E.
Qed.

Lemma lstrip_fixed s : head_ok s = true -> lstrip s = s.
Proof.
  destruct s as [|c s]; simpl; [done|].
  by destruct (isspace c).
Qed.

Lemma lstrip_suffix s : exists k, s = k ++ lstrip s.
Proof.
  induction s as [|c s [k IH]]; simpl.
  - by exists [].
  - destruct (isspace c).
    + exists (c :: k). simpl. by f_equal.
    + by exists [].
Qed.

Lemma rstrip_prefix s : exists k, s = rstrip s ++ k.
Proof.
  unfold rstrip. destruct (lstrip_suffix (rev s)) as [k Hk].
  exists (rev k). rewrite <- rev_app_distr, <- Hk. by rewrite rev_involutive.
Qed.

Lemma head_ok_app s t : s <> [] -> head_ok (s ++ t) = head_ok s.
Proof. by destruct s. Qed.

Lemma rstrip_head_ok s : head_ok s = true -> head_ok (rstrip s) = true.
Proof.
  intros H. destruct (rstrip_prefix s) as [k Hk].
  destruct (rstrip s) as [|c r] eqn:E; [done|].
  rewrite Hk in H. by rewrite head_ok_app in H.
Qed.

Lemma strip_trimmed s : trimmed (strip s).
Proof.
  split.
  - apply rstrip_head_ok, lstrip_head_ok.
  - unfold strip, rstrip. rewrite rev_involutive. apply lstrip_head_ok.
Qed.

Lemma trimmed_strip s : trimmed s -> strip s = s.
Proof.
  intros [H1 H2]. unfold strip, rstrip.
  rewrite (lstrip_fixed s H1), (lstrip_fixed (rev s) H2).
  apply rev_involutive.
Qed.

Lemma strip_idemp s : strip (strip s) = strip s.
Proof. apply trimmed_strip, strip_trimmed. Qed.

Lemma trimmed_prefixed p s :
  head_ok p = true -> p <> [] -> trimmed s -> s <> [] -> trimmed (p ++ s).
Proof.
  intros Hp Hpne [_ Hs] Hsne. split.
  - by rewrite head_ok_app.
  - rewrite rev_app_distr, head_ok_app; [done|].
    intros E. apply Hsne. by rewrite <- (rev_involutive s), E.
Qed.

(** Line boundaries *)

Lemma lstrip_nolb s : nolb s -> nolb (lstrip s).
Proof.
  intros H. destruct (lstrip_suffix s) as [k Hk].
  rewrite Hk in H. by apply Forall_app in H as [_ H].
Qed.

Lemma strip_nolb s : nolb s -> nolb (strip s).
Proof.
  intros H. unfold strip, rstrip, nolb.
  apply Forall_rev, lstrip_nolb, Forall_rev, lstrip_nolb, H.
Qed.

Lemma list_ind_two {A} (P : list A -> Prop) :
  P [] ->
  (forall x l, P l -> (forall y l', l = y :: l' -> P l') -> P (x :: l)) ->
  forall l, P l.
Proof.
  intros H0 Hstep l.
  enough (P l /\ (forall y l', l = y :: l' -> P l')) by tauto.
  induction l as [|x l [IH1 IH2]].
  - split; [done|]. by intros.
  - split; [by apply Hstep|]. by intros y l' [= _ <-].
Qed.

Lemma splitlines_nolb s : Forall nolb (splitlines s).
Proof.
  induction s as [|c s IH1 IH2] using list_ind_two; simpl; [constructor|].
  destruct (islinebreak c) eqn:Ec.
  - constructor; [constructor|].
    destruct (c =? CR); [|done].
    destruct s as [|d s']; [done|].
    destruct (d =? LF); [|done]. by apply (IH2 d).
  - destruct (splitlines s) as [|l ls]; repeat constructor; trivial.
    + by apply Forall_cons_1 in IH1 as [? _].
    + by apply Forall_cons_1 in IH1 as [_ ?].
Qed.

Lemma splitlines_line p s :
  nolb p -> splitlines (p ++ LF :: s) = p :: splitlines s.
Proof.
  induction 1 as [|c p Hc _ IH]; simpl; [done|].
  by rewrite Hc, IH.
Qed.

Lemma splitlines_last p : nolb p -> p <> [] -> splitlines p = [p].
Proof.
  induction 1 as [|c p Hc Hp IH]; [done|]. intros _. simpl. rewrite Hc.
  destruct p as [|d p]; [done|]. by rewrite IH.
Qed.

Lemma splitlines_join ls :
  Forall (fun l => nolb l /\ l <> []) ls -> splitlines (join nl ls) = ls.
Proof.
  induction 1 as [|l ls [Hl Hne] Hls IH]; [done|].
  destruct ls as [|l' ls'].
  - simpl. by apply splitlines_last.
  - change (join nl (l :: l' :: ls')) with (l ++ LF :: join nl (l' :: ls')).
    rewrite splitlines_line by done. by rewrite IH.
Qed.

(** Prefixes *)

Lemma startswith_app p s : startswith p (p ++ s) = true.
Proof. induction p as [|c p IH]; simpl; [done|]. by rewrite N.eqb_refl. Qed.

Lemma startswith_inv p s : startswith p s = true -> exists t, s = p ++ t.
Proof.
  revert s. induction p as [|c p IH]; intros s; simpl.
  - by exists s.
  - destruct s as [|d s]; [done|].
    intros [Hcd Hp]%andb_true_iff. apply N.eqb_eq in Hcd as ->.
    destruct (IH _ Hp) as [t ->]. by exists t.
Qed.

Lemma replace1_prefix p s : replace1 p [] (p ++ s) = s.
Proof.
  destruct s as [|c s]; destruct p as [|d p]; simpl; try done.
  - rewrite N.eqb_refl, startswith_app. simpl.
    by rewrite drop_app_length.
  - rewrite N.eqb_refl, startswith_app. simpl.
    by rewrite drop_app_length.
Qed.

(** White space *)

Lemma lstrip_nil s : lstrip s = [] <-> allspace s.
Proof.
  induction s as [|c s IH]; simpl.
  - split; [constructor | done].
  - destruct (isspace c) eqn:E.
    + rewrite IH. split; [by constructor | by intros [_ ?]%Forall_cons_1].
    + split; [done|]. intros [H _]%Forall_cons_1. congruence.
Qed.

Lemma strip_nil s : strip s = [] <-> allspace s.
Proof.
  split.
  - intros H. unfold strip, rstrip in H.
    assert (lstrip (rev (lstrip s)) = []) as H1.
    { by rewrite <- (rev_involutive (lstrip _)), H. }
    apply lstrip_nil in H1. unfold allspace in H1.
    apply Forall_rev in H1. rewrite rev_involutive in H1.
    apply lstrip_nil.
    pose proof (lstrip_head_ok s) as Hh.
    destruct (lstrip s) as [|c r]; [done|].
    apply Forall_cons_1 in H1 as [Hc _]. simpl in Hh. by rewrite Hc in Hh.
  - intros H. unfold strip. by rewrite (proj2 (lstrip_nil s) H).
Qed.

End StringFacts.

(** ** Bullet normalisation *)

Section Normalize.

Lemma not_false_ne (l : str) : not_ l = false -> l <> [].
Proof. by destruct l. Qed.

Lemma bullets_cons (l : str) (ls : list str) :
  bullets (l :: ls) =
    if not_ l then bullets ls
    else if startswith bullet l then l :: bullets ls
    else (bullet ++ l) :: bullets ls.
Proof. reflexivity. Qed.

Lemma bullets_lines (ls : list str) :
  Forall (fun l => nolb l /\ trimmed l) ls -> Forall bullet_line (bullets ls).
Proof.
  induction 1 as [|l ls [Hlb Htr] _ IH]; [constructor|].
  rewrite bullets_cons.
  destruct (not_ l) eqn:Hne; [done|].
  destruct (startswith bullet l) eqn:Hb; constructor; trivial.
  - unfold bullet_line. tauto.
  - unfold bullet_line. split; [|split; [|split]].
    + apply Forall_app. split; [by repeat constructor | done].
    + apply (trimmed_prefixed bullet l); try done. by apply not_false_ne.
    + done.
    + apply startswith_app.
Qed.

Lemma stripped_lines (x : str) :
  Forall (fun l => nolb l /\ trimmed l) (List.map strip (splitlines x)).
Proof.
  apply Forall_map. eapply Forall_impl; [apply splitlines_nolb|].
  intros l Hl. simpl. split; [by apply strip_nolb | apply strip_trimmed].
Qed.

Lemma bullets_fixed (ls : list str) : Forall bullet_line ls -> bullets ls = ls.
Proof.
  induction 1 as [|l ls (_ & _ & Hne & Hb) _ IH]; [done|].
  by rewrite bullets_cons, Hne, Hb, IH.
Qed.

Lemma strip_fixed (ls : list str) :
  Forall bullet_line ls -> List.map strip ls = ls.
Proof.
  induction 1 as [|l ls (_ & Htr & _) _ IH]; simpl; [done|].
  by rewrite IH, trimmed_strip.
Qed.

Lemma normalized_lines (x : str) :
  splitlines (normalize_bullets x) = bullets (List.map strip (splitlines x)).
Proof.
  unfold normalize_bullets. apply splitlines_join.
  eapply Forall_impl; [apply bullets_lines, stripped_lines|].
  intros l (Hlb & _ & Hne & _). split; [done | by apply not_false_ne].
Qed.

(** C7. [normalize_bullets] is idempotent, and every line of its output is
    non-empty and starts with the bullet marker "- ". *)
Theorem normalize_bullets_idempotent (x : str) :
  normalize_bullets (normalize_bullets x) = normalize_bullets x
  /\ Forall (fun l => not_ l = false /\ startswith (lit "- ") l = true)
       (splitlines (normalize_bullets x)).
Proof.
  pose proof (bullets_lines _ (stripped_lines x)) as HL.
  split.
  - unfold normalize_bullets at 1.
    rewrite normalized_lines, (strip_fixed _ HL), (bullets_fixed _ HL).
    reflexivity.
  - rewrite normalized_lines.
    eapply Forall_impl; [exact HL|]. by intros l (_ & _ & ? & ?).
Qed.

End Normalize.

(** ** The reply parser *)

Section Parse.

Implicit Types (l s b : str) (lines pre mid tl : list str).

Lemma scan_cons lines idx l tl s b :
  scan lines idx (l :: tl) s b =
    if is_subject_line l then
      scan lines (S idx) tl (take_subject subject_prefixes l s) b
    else if is_body_line l then (s, strip (join nl (drop (idx + 1) lines)))
    else scan lines (S idx) tl s b.
Proof. reflexivity. Qed.

Lemma subject_line_inv l :
  is_subject_line l = true ->
  exists p t, p ∈ subject_prefixes /\ l = p ++ t.
Proof.
  unfold is_subject_line, startswith_any, subject_prefixes.
  intros H. apply existsb_exists in H as (p & Hp & Hs).
  apply startswith_inv in Hs as [t ->]. exists p, t.
  split; [by apply list_elem_of_In | done].
Qed.

Lemma subject_prefixes_inv p :
  p ∈ subject_prefixes -> p = lit "件名：" \/ p = lit "件名:".
Proof.
  unfold subject_prefixes. intros H.
  apply elem_of_cons in H as [->|H]; [by left|].
  apply elem_of_cons in H as [->|H]; [by right|].
  by apply elem_of_nil in H.
Qed.

Lemma subject_not_body l : is_subject_line l = true -> is_body_line l = false.
Proof.
  intros (p & t & Hp & ->)%subject_line_inv.
  by apply subject_prefixes_inv in Hp as [-> | ->].
Qed.

Lemma body_not_subject l : is_body_line l = true -> is_subject_line l = false.
Proof.
  intros H. destruct (is_subject_line l) eqn:E; [|done].
  apply subject_not_body in E. congruence.
Qed.

(** On a line that starts with a subject marker the inner loop assigns
    what follows the marker, stripped, whatever [subject] was. *)
Lemma take_subject_after p t s :
  p ∈ subject_prefixes -> take_subject subject_prefixes (p ++ t) s = strip t.
Proof.
  intros [-> | ->]%subject_prefixes_inv.
  - unfold subject_prefixes, take_subject.
    by rewrite startswith_app, replace1_prefix.
  - unfold subject_prefixes, take_subject.
    replace (startswith (lit "件名：") (lit "件名:" ++ t)) with false by done.
    by rewrite startswith_app, replace1_prefix.
Qed.

Lemma take_subject_line l s :
  is_subject_line l = true ->
  take_subject subject_prefixes l s = take_subject subject_prefixes l [].
Proof.
  intros (p & t & Hp & ->)%subject_line_inv.
  by rewrite !take_subject_after.
Qed.

Lemma subject_after_plain mid s :
  Forall (fun l => is_subject_line l = false) mid -> subject_after mid s = s.
Proof.
  induction 1 as [|l mid Hl _ IH]; [done|].
  unfold subject_after in *. simpl. unfold subject_step at 2. by rewrite Hl.
Qed.

Lemma subject_after_last pre l mid s :
  is_subject_line l = true ->
  Forall (fun x => is_subject_line x = false) mid ->
  subject_after (pre ++ l :: mid) s = take_subject subject_prefixes l [].
Proof.
  intros Hl Hmid. unfold subject_after. rewrite fold_left_app. simpl.
  fold (subject_after mid). rewrite subject_after_plain by done.
  unfold subject_step at 1. rewrite Hl. by apply take_subject_line.
Qed.

Lemma subject_after_cases pre s :
  subject_after pre s = s
  \/ exists l, l ∈ pre /\ is_subject_line l = true
       /\ subject_after pre s = take_subject subject_prefixes l [].
Proof.
  revert s. induction pre as [|x pre IH]; intros s; [by left|].
  change (subject_after (x :: pre) s) with (subject_after pre (subject_step s x)).
  destruct (IH (subject_step s x)) as [E | (l & Hin & Hl & E)].
  - rewrite E. unfold subject_step.
    destruct (is_subject_line x) eqn:Hx; [|by left].
    right. exists x. split; [constructor|]. split; [done|].
    by apply take_subject_line.
  - right. exists l. split; [by constructor|]. done.
Qed.

Lemma scan_header pre : forall lines idx tl s b,
  Forall (fun l => is_body_line l = false) pre ->
  scan lines idx (pre ++ tl) s b =
    scan lines (idx + length pre) tl (subject_after pre s) b.
Proof.
  induction pre as [|x pre IH]; intros lines idx tl s b Hpre.
  - simpl. by rewrite Nat.add_0_r.
  - apply Forall_cons_1 in Hpre as [Hx Hpre].
    change ((x :: pre) ++ tl) with (x :: (pre ++ tl)).
    rewrite scan_cons, Hx.
    change (subject_after (x :: pre) s) with (subject_after pre (subject_step s x)).
    unfold subject_step. simpl length. rewrite Nat.add_succ_r.
    destruct (is_subject_line x); by rewrite IH.
Qed.

Lemma before_body_split lines :
  Forall (fun l => is_body_line l = false) (before_body lines)
  /\ (lines = before_body lines
      \/ exists bl tl, lines = before_body lines ++ bl :: tl
           /\ is_body_line bl = true).
Proof.
  induction lines as [|l lines [IH1 IH2]]; simpl.
  - split; [constructor | by left].
  - destruct (is_body_line l) eqn:Hl.
    + split; [constructor|]. right. by exists l, lines.
    + split; [by constructor|].
      destruct IH2 as [E | (bl & tl & E & Hbl)].
      * left. by f_equal.
      * right. exists bl, tl. split; [|done]. simpl. by f_equal.
Qed.

(** The candidates, without the loop. *)
Lemma candidates_no_body text :
  lines_of text = before_body (lines_of text) ->
  candidates text = (subject_after (lines_of text) [], []).
Proof.
  intros E. unfold candidates. fold (lines_of text).
  destruct (before_body_split (lines_of text)) as [Hpre _].
  rewrite <- E in Hpre.
  rewrite <- (app_nil_r (lines_of text)) at 2.
  by rewrite scan_header.
Qed.

Lemma candidates_body text pre bl tl :
  lines_of text = pre ++ bl :: tl ->
  Forall (fun l => is_body_line l = false) pre ->
  is_body_line bl = true ->
  candidates text = (subject_after pre [], strip (join nl tl)).
Proof.
  intros E Hpre Hbl. unfold candidates. fold (lines_of text).
  rewrite E at 2. rewrite scan_header by done.
  rewrite scan_cons, (body_not_subject _ Hbl), Hbl. f_equal. f_equal. f_equal.
  rewrite E. simpl. by rewrite drop_app_add'.
Qed.

Lemma candidates_subject text :
  fst (candidates text) = subject_after (before_body (lines_of text)) [].
Proof.
  destruct (before_body_split (lines_of text))
    as [Hpre [E | (bl & tl & E & Hbl)]].
  - rewrite (candidates_no_body _ E). simpl. by rewrite <- E.
  - by rewrite (candidates_body _ _ _ _ E Hpre Hbl).
Qed.

Lemma parse_output_eq text :
  parse_output text =
    if not_ (fst (candidates text)) then (placeholder, strip text)
    else if not_ (snd (candidates text)) then (fst (candidates text), strip text)
    else candidates text.
Proof. unfold parse_output. by destruct (candidates text). Qed.

Lemma parse_output_subject text :
  fst (parse_output text) =
    if not_ (fst (candidates text)) then placeholder else fst (candidates text).
Proof.
  rewrite parse_output_eq.
  destruct (not_ (fst (candidates text))); [done|].
  by destruct (not_ (snd (candidates text))).
Qed.

End Parse.

(** ** What the parser returns *)

Section ParseSpec.

Implicit Types (raw l : str) (pre mid : list str).

Lemma after_body_app pre bl tl :
  Forall (fun l => is_body_line l = false) pre ->
  is_body_line bl = true ->
  after_body (pre ++ bl :: tl) = Some tl.
Proof.
  induction 1 as [|x pre Hx _ IH]; intros Hbl; simpl.
  - by rewrite Hbl.
  - rewrite Hx. by apply IH.
Qed.

Lemma after_body_none (lines : list str) :
  Forall (fun l => is_body_line l = false) lines -> after_body lines = None.
Proof. induction 1 as [|x pre Hx _ IH]; simpl; [done|]. by rewrite Hx. Qed.

Lemma candidates_body_part raw :
  snd (candidates raw) =
    match after_body (lines_of raw) with
    | Some tl => strip (join nl tl)
    | None => []
    end.
Proof.
  destruct (before_body_split (lines_of raw))
    as [Hpre [E | (bl & tl & E & Hbl)]].
  - rewrite (candidates_no_body _ E). rewrite <- E in Hpre.
    by rewrite after_body_none.
  - rewrite (candidates_body _ _ _ _ E Hpre Hbl).
    revert E Hpre. generalize (before_body (lines_of raw)). intros pre -> Hpre.
    by rewrite after_body_app.
Qed.

(** C3, counterexample.  With two subject lines the second one wins: the
    reply "件名：A" / "件名：B" yields the subject "B", not "A". *)
Lemma subject_from_first_marker_line_fails :
  ~ subject_from_first_marker_line (join nl [lit "件名：A"; lit "件名：B"]).
Proof.
  intros H.
  assert (fst (parse_output (join nl [lit "件名：A"; lit "件名：B"])) = lit "B")
    as E by reflexivity.
  assert (lit "B" = strip (lit "A")) as Habs.
  { rewrite <- E.
    apply (H (lit "件名：A") eq_refl (lit "件名：") (lit "A"));
      [constructor | reflexivity]. }
  vm_compute in Habs. discriminate Habs.
Qed.

(** C3, amended.  When some line in front of the first body-marker line
    starts with a subject marker, the subject candidate is taken from the
    LAST such line: it is what follows the marker prefix of that line,
    stripped.  [parse_output] returns it when it is not empty and the
    placeholder when it is. *)
Theorem parse_subject_from_last_marker_line raw pre l mid :
  before_body (lines_of raw) = pre ++ l :: mid ->
  is_subject_line l = true ->
  forallb (fun x => negb (is_subject_line x)) mid = true ->
  fst (candidates raw) = take_subject subject_prefixes l []
  /\ fst (parse_output raw) =
       (if not_ (take_subject subject_prefixes l []) then placeholder
        else take_subject subject_prefixes l [])
  /\ exists p t, p ∈ subject_prefixes /\ l = p ++ t
       /\ take_subject subject_prefixes l [] = strip t.
Proof.
  intros E Hl Hmid.
  assert (fst (candidates raw) = take_subject subject_prefixes l []) as Hc.
  { rewrite candidates_subject, E. apply subject_after_last; [done|].
    apply Forall_forall. intros x Hx.
    rewrite forallb_forall in Hmid. apply list_elem_of_In, Hmid in Hx.
    by apply negb_true_iff in Hx. }
  split; [done|]. split.
  - by rewrite parse_output_subject, Hc.
  - destruct (subject_line_inv _ Hl) as (p & t & Hp & ->).
    exists p, t. by rewrite take_subject_after.
Qed.

Lemma parse_subject_from_last_marker_line_witness :
  fst (parse_output
         (join nl [lit "件名：A"; lit "件名：B"; lit "本文："; lit "件名：C"]))
  = lit "B".
Proof.
  apply (parse_subject_from_last_marker_line
           (join nl [lit "件名：A"; lit "件名：B"; lit "本文："; lit "件名：C"])
           [lit "件名：A"] (lit "件名：B") []); reflexivity.
Defined.

(** C4, counterexample.  A reply that is a single space is not empty, and
    its body is. *)
Lemma body_nonempty_for_nonempty_raw_fails :
  ~ body_nonempty_for_nonempty_raw (lit " ").
Proof. intros H. by apply H. Qed.

(** C4, amended.  [parse_output] returns a pair for every input, the empty
    string included, and the body is non-empty whenever the stripped input
    is non-empty. *)
Theorem parse_output_total raw :
  (exists subject body, parse_output raw = (subject, body))
  /\ parse_output [] = (placeholder, [])
  /\ (not_ (strip raw) = false -> not_ (snd (parse_output raw)) = false).
Proof.
  split; [|split].
  - by exists (fst (parse_output raw)), (snd (parse_output raw));
      destruct (parse_output raw).
  - reflexivity.
  - intros H. rewrite parse_output_eq.
    destruct (not_ (fst (candidates raw))); [done|].
    by destruct (not_ (snd (candidates raw))) eqn:E.
Qed.

Lemma parse_output_total_witness :
  not_ (snd (parse_output (lit "件名：X"))) = false.
Proof.
  apply (proj2 (proj2 (parse_output_total (lit "件名：X")))).
  reflexivity.
Defined.

Lemma subject_line_intro (p t : str) :
  p ∈ subject_prefixes -> is_subject_line (p ++ t) = true.
Proof.
  intros Hp. unfold is_subject_line, startswith_any.
  apply existsb_exists. exists p.
  split; [by apply list_elem_of_In | apply startswith_app].
Qed.

(** C5, counterexample.  The reply "件名：" / "本文：" / "Body text" has a
    subject-marker line and a body candidate, and yet the placeholder and
    the whole reply come back: nothing follows the subject marker, and an
    empty candidate counts as not found. *)
Lemma resolution_by_marker_lines_fails :
  ~ resolution_by_marker_lines
      (join nl [lit "件名："; lit "本文："; lit "Body text"]).
Proof.
  intros [_ H].
  assert (lit "件名：" ∈ subject_prefixes) as Hp by constructor.
  specialize (H (lit "件名：") [] Hp eq_refl).
  vm_compute in H. discriminate H.
Qed.

(** C5, amended.  The candidates are read off the stripped lines of the
    reply: the subject candidate is what follows the marker, stripped, on
    the last subject-marker line in front of the first body-marker line;
    the body candidate is made of the lines behind the first body-marker
    line, joined with newlines and stripped.  A candidate that is missing
    or EMPTY counts as not found: without a non-empty subject candidate
    the result is the placeholder and the whole stripped reply, whatever
    the body candidate; with one but without a non-empty body candidate it
    is the subject and the whole stripped reply; otherwise it is the two
    candidates. *)
Theorem parse_output_by_candidates raw :
  (forallb (fun l => negb (is_subject_line l)) (before_body (lines_of raw))
   = true ->
   parse_output raw = (placeholder, strip raw))
  /\ (forall pre p t mid,
        before_body (lines_of raw) = pre ++ (p ++ t) :: mid ->
        p ∈ subject_prefixes ->
        forallb (fun l => negb (is_subject_line l)) mid = true ->
        parse_output raw =
          if not_ (strip t) then (placeholder, strip raw)
          else match after_body (lines_of raw) with
               | None => (strip t, strip raw)
               | Some tl =>
                   if not_ (strip (join nl tl)) then (strip t, strip raw)
                   else (strip t, strip (join nl tl))
               end)
  /\ parse_output (lit "just some text") = (placeholder, lit "just some text").
Proof.
  assert (forall ls, forallb (fun l => negb (is_subject_line l)) ls = true ->
                     Forall (fun l => is_subject_line l = false) ls) as Hplain.
  { intros ls H. apply Forall_forall. intros x Hx.
    rewrite forallb_forall in H. apply list_elem_of_In, H in Hx.
    by apply negb_true_iff in Hx. }
  split; [|split].
  - intros H. rewrite parse_output_eq, candidates_subject.
    by rewrite (subject_after_plain _ _ (Hplain _ H)).
  - intros pre p t mid E Hp Hmid.
    assert (fst (candidates raw) = strip t) as Hs.
    { rewrite candidates_subject, E.
      rewrite subject_after_last;
        [by apply take_subject_after | by apply subject_line_intro | by apply Hplain]. }
    pose proof (candidates_body_part raw) as Hb.
    rewrite parse_output_eq. revert Hs Hb.
    destruct (candidates raw) as [subject body]. cbn [fst snd].
    intros -> ->. destruct (not_ (strip t)); [done|].
    by destruct (after_body (lines_of raw)).
  - reflexivity.
Qed.

Lemma parse_output_by_candidates_witness :
  parse_output (join nl [lit "件名：A"; lit "件名: Hello"; lit "本文："; lit "Line"])
  = (lit "Hello", lit "Line")
  /\ parse_output (join nl [lit "本文："; lit "件名：A"])
     = (placeholder, join nl [lit "本文："; lit "件名：A"]).
Proof.
  split.
  - apply (proj1 (proj2 (parse_output_by_candidates
             (join nl [lit "件名：A"; lit "件名: Hello"; lit "本文："; lit "Line"])))
             [lit "件名：A"] (lit "件名:") (lit " Hello") []).
    + reflexivity.
    + vm_compute. repeat constructor.
    + reflexivity.
  - apply (proj1 (parse_output_by_candidates
             (join nl [lit "本文："; lit "件名：A"]))).
    reflexivity.
Defined.

(** C6, counterexample.  The markers of the program are "件名" and "本文";
    a reply with the English words has no marker, so the placeholder and
    the whole reply come back. *)
Lemma parse_english_markers_fails :
  parse_output
    (join nl [lit "Subject: Hello"; lit "Body:"; lit "Line one"; lit "Line two"])
  <> (lit "Hello", join nl [lit "Line one"; lit "Line two"]).
Proof. discriminate. Qed.

(** C6, amended.  With the markers the program scans for, the four-line
    reply is split into the subject "Hello" and the two body lines. *)
Theorem parse_round_trip :
  parse_output
    (join nl [lit "件名: Hello"; lit "本文:"; lit "Line one"; lit "Line two"])
  = (lit "Hello", join nl [lit "Line one"; lit "Line two"])
  /\ parse_output
    (join nl [lit "件名：Hello"; lit "本文："; lit "Line one"; lit "Line two"])
  = (lit "Hello", join nl [lit "Line one"; lit "Line two"])
  /\ parse_output
    (join nl [lit "Subject: Hello"; lit "Body:"; lit "Line one"; lit "Line two"])
  = (placeholder,
     join nl [lit "Subject: Hello"; lit "Body:"; lit "Line one"; lit "Line two"]).
Proof. repeat split. Qed.

End ParseSpec.

(** ** Validation *)

Section Validation.

Implicit Types (s : str) (w : World).

Lemma validate_inputs_cases s w :
  succeeds s w \/ exists e, fails_with e s w.
Proof.
  unfold succeeds, fails_with, validate_inputs, warning_of.
  destruct (not_ (strip s)); [right; by exists Empty|].
  destruct (length s <? 10)%nat; [right; by exists TooShort|].
  destruct (4000 <? length s)%nat; [right; by exists TooLong|].
  by left.
Qed.

Lemma validate_inputs_session s w :
  session_state (snd (validate_inputs s w)) = session_state w.
Proof.
  destruct (validate_inputs_cases s w) as [E | [e E]]; by rewrite E.
Qed.

Lemma validate_inputs_true s w :
  fst (validate_inputs s w) = Ok true -> validate_inputs s w = (Ok true, w).
Proof.
  destruct (validate_inputs_cases s w) as [E | [e E]]; rewrite E; [done|].
  cbv [bind st_warning ret fst]. discriminate.
Qed.

(** C2, counterexample.  "abc" followed by nine spaces has three characters
    once stripped, and twelve as it is: it passes. *)
Lemma validate_on_trimmed_length_fails :
  ~ validate_on_trimmed_length (lit "abc         ") empty_world.
Proof.
  intros (_ & _ & H & _).
  assert (fails_with TooShort (lit "abc         ") empty_world) as E.
  { apply H. vm_compute. lia. }
  vm_compute in E. discriminate E.
Qed.

(** C2, amended.  The rules in the order of the code, with both length
    bounds on the raw text: [Empty] when the stripped text is empty;
    otherwise [TooShort] when the raw length is below 10; otherwise
    [TooLong] when the raw length is above 4000; otherwise success.  So the
    validation succeeds exactly when the stripped text is not empty and the
    raw length is in [10, 4000]. *)
Theorem validate_inputs_rules s w :
  (not_ (strip s) = true -> fails_with Empty s w)
  /\ (not_ (strip s) = false -> (length s < 10)%nat -> fails_with TooShort s w)
  /\ (not_ (strip s) = false -> (4000 < length s)%nat -> fails_with TooLong s w)
  /\ (not_ (strip s) = false -> (10 <= length s <= 4000)%nat -> succeeds s w).
Proof.
  unfold fails_with, succeeds, validate_inputs. cbn [warning_of].
  split; [|split; [|split]].
  - intros ->. reflexivity.
  - intros -> H. apply Nat.ltb_lt in H. rewrite H. reflexivity.
  - intros -> H.
    assert ((length s <? 10)%nat = false) as -> by (apply Nat.ltb_ge; lia).
    apply Nat.ltb_lt in H. rewrite H. reflexivity.
  - intros -> [H1 H2].
    assert ((length s <? 10)%nat = false) as -> by (apply Nat.ltb_ge; lia).
    assert ((4000 <? length s)%nat = false) as -> by (apply Nat.ltb_ge; lia).
    reflexivity.
Qed.

Lemma validate_inputs_rules_witness :
  succeeds (lit "abc         ") empty_world
  /\ fails_with TooShort (lit "abc") empty_world.
Proof.
  split.
  - apply (proj2 (proj2 (proj2
             (validate_inputs_rules (lit "abc         ") empty_world)))).
    + reflexivity.
    + vm_compute. lia.
  - apply (proj1 (proj2 (validate_inputs_rules (lit "abc") empty_world))).
    + reflexivity.
    + vm_compute. lia.
Defined.

End Validation.

(** ** The handlers *)

Section Handlers.

Variable invoke : str -> option str.

Implicit Types (w : World) (instruction reply : str).

Ltac fold_current w :=
  change (strip (default [] (session_state w !! "body")))
    with (current_body w);
  try change (strip (default [] (session_state w !! "subject")))
    with (current_subject w).

Lemma parse_subject_not_empty (text : str) :
  not_ (fst (parse_output text)) = false.
Proof.
  rewrite parse_output_subject.
  by destruct (not_ (fst (candidates text))) eqn:E.
Qed.

Lemma handle_generate_no_key w :
  falsy (environ w !! API_KEY) = true ->
  handle_generate invoke w = (Ok tt, warned msg_no_key w).
Proof.
  intros H. cbv [handle_generate bind getenv]. fold API_KEY. by rewrite H.
Qed.

Lemma handle_rewrite_no_key instruction w :
  falsy (environ w !! API_KEY) = true ->
  handle_rewrite invoke instruction w = (Ok tt, warned msg_no_key w).
Proof.
  intros H. cbv [handle_rewrite bind getenv]. fold API_KEY. by rewrite H.
Qed.

Lemma handle_rewrite_empty_body instruction w :
  falsy (environ w !! API_KEY) = false ->
  not_ (current_body w) = true ->
  handle_rewrite invoke instruction w = (Ok tt, warned msg_empty_body w).
Proof.
  intros Hk Hb. cbv [handle_rewrite bind getenv get]. fold API_KEY.
  rewrite Hk. fold_current w. by rewrite Hb.
Qed.

Lemma handle_rewrite_gateway_error instruction w :
  falsy (environ w !! API_KEY) = false ->
  not_ (current_body w) = false ->
  invoke (rewrite_prompt instruction w) = None ->
  handle_rewrite invoke instruction w =
    (Ok tt, mkWorld (session_state w) (environ w) (warnings w)
              (errors w ++ [msg_rewrite_failed])
              (llm_calls w ++ [rewrite_prompt instruction w])).
Proof.
  intros Hk Hb Hi.
  cbv [handle_rewrite bind getenv get try_except call_llm]. fold API_KEY.
  rewrite Hk. fold_current w. rewrite Hb.
  by rewrite Hi.
Qed.

Lemma handle_rewrite_success instruction w reply :
  falsy (environ w !! API_KEY) = false ->
  not_ (current_body w) = false ->
  invoke (rewrite_prompt instruction w) = Some reply ->
  handle_rewrite invoke instruction w =
    (Ok tt, mkWorld (<["body" := snd (parse_output reply)]>
                       (<["subject" := fst (parse_output reply)]>
                          (session_state w)))
              (environ w) (warnings w) (errors w)
              (llm_calls w ++ [rewrite_prompt instruction w])).
Proof.
  intros Hk Hb Hi.
  cbv [handle_rewrite bind getenv get try_except call_llm ret]. fold API_KEY.
  rewrite Hk. fold_current w. rewrite Hb.
  rewrite Hi.
  pose proof (parse_subject_not_empty reply) as Hs.
  destruct (parse_output reply) as [new_subject new_body].
  simpl in Hs. by rewrite Hs.
Qed.

Lemma generate_with_llm_session w :
  session_state (snd (generate_with_llm invoke w)) = session_state w.
Proof.
  cbv [generate_with_llm bind getitem call_llm ret].
  repeat (destruct (session_state w !! _); [|done]).
  by destruct (invoke _).
Qed.

Lemma before_body_subset (lines : list str) (l : str) :
  l ∈ before_body lines -> l ∈ lines.
Proof.
  induction lines as [|x lines IH]; simpl; [done|].
  destruct (is_body_line x); [by intros ?%elem_of_nil|].
  intros [->|H]%elem_of_cons; [constructor|]. constructor. by apply IH.
Qed.

(** Either [handle_generate] leaves the session state as it was, or every
    step of it went through. *)
Lemma handle_generate_cases w :
  session_state (exec (handle_generate invoke) w) = session_state w
  \/ (falsy (environ w !! API_KEY) = false
      /\ exists ri p w1,
           session_state w !! "required_info" = Some ri
           /\ validate_inputs ri w = (Ok true, w)
           /\ generate_with_llm invoke w = (Ok p, w1)).
Proof.
  cbv [handle_generate bind getenv getitem exec try_except]. fold API_KEY.
  destruct (falsy (environ w !! API_KEY)); [by left|].
  destruct (session_state w !! "required_info") as [ri|]; [|by left].
  destruct (validate_inputs_cases ri w) as [E | [e E]];
    unfold succeeds, fails_with in E; rewrite E.
  - cbv [negb].
    pose proof (generate_with_llm_session w) as Hs.
    destruct (generate_with_llm invoke w) as [[p|] w1] eqn:G.
    + right. split; [done|]. by exists ri, p, w1.
    + left. exact Hs.
  - left. reflexivity.
Qed.

(** C8.  Without the credential in the environment both actions show the
    warning and return; no prompt is handed to the model, and the outcome
    does not depend on the model at all. *)
Theorem missing_credential_aborts instruction w :
  environ w !! API_KEY = None ->
  handle_generate invoke w = (Ok tt, warned msg_no_key w)
  /\ handle_rewrite invoke instruction w = (Ok tt, warned msg_no_key w)
  /\ warnings (warned msg_no_key w) = warnings w ++ [msg_no_key]
  /\ llm_calls (warned msg_no_key w) = llm_calls w.
Proof.
  intros H.
  assert (falsy (environ w !! API_KEY) = true) as Hf by (by rewrite H).
  split; [by apply handle_generate_no_key|].
  split; [by apply handle_rewrite_no_key|]. done.
Qed.

(** C9.  On every failure path the session state is what it was: for
    [handle_generate] a missing credential, a missing or invalid required
    info, or a failing call to the model; for [handle_rewrite] a missing
    credential, an empty current body, or a failing call to the model. *)
Theorem failure_keeps_session_state instruction w :
  (falsy (environ w !! API_KEY) = true
   \/ session_state w !! "required_info" = None
   \/ (exists ri, session_state w !! "required_info" = Some ri
                 /\ fst (validate_inputs ri w) = Ok false)
   \/ fst (generate_with_llm invoke w) = Raise ->
   session_state (exec (handle_generate invoke) w) = session_state w)
  /\ (falsy (environ w !! API_KEY) = true
      \/ not_ (current_body w) = true
      \/ invoke (rewrite_prompt instruction w) = None ->
      session_state (exec (handle_rewrite invoke instruction) w)
      = session_state w).
Proof.
  split.
  - intros H.
    destruct (handle_generate_cases w)
      as [E | (Hk & ri & p & w1 & Hri & Hv & Hg)]; [done|].
    destruct H as [H | [H | [(ri' & Hri' & H) | H]]].
    + congruence.
    + congruence.
    + rewrite Hri in Hri'. injection Hri' as <-. rewrite Hv in H. discriminate H.
    + rewrite Hg in H. discriminate H.
  - intros H. unfold exec.
    destruct (falsy (environ w !! API_KEY)) eqn:Hk.
    { by rewrite handle_rewrite_no_key. }
    destruct (not_ (current_body w)) eqn:Hb.
    { by rewrite handle_rewrite_empty_body. }
    destruct (invoke (rewrite_prompt instruction w)) as [reply|] eqn:Hi.
    { destruct H as [H | [H | H]]; discriminate H. }
    by rewrite handle_rewrite_gateway_error.
Qed.

(** C10.  The subject [parse_output] returns is never empty: it is the
    placeholder or the non-empty text behind a subject marker.  Hence the
    guard of [handle_rewrite] never keeps the stored subject: a rewrite
    that succeeds stores the parsed subject and the parsed body. *)
Theorem parse_subject_never_empty (text instruction : str) w :
  not_ (fst (parse_output text)) = false
  /\ (fst (parse_output text) = placeholder
      \/ exists l p t, l ∈ lines_of text /\ p ∈ subject_prefixes /\ l = p ++ t
           /\ not_ (strip t) = false /\ fst (parse_output text) = strip t)
  /\ (falsy (environ w !! API_KEY) = false ->
      not_ (current_body w) = false ->
      invoke (rewrite_prompt instruction w) = Some text ->
      session_state (exec (handle_rewrite invoke instruction) w)
      = <["body" := snd (parse_output text)]>
          (<["subject" := fst (parse_output text)]> (session_state w))).
Proof.
  split; [apply parse_subject_not_empty|]. split.
  - rewrite parse_output_subject.
    destruct (not_ (fst (candidates text))) eqn:E; [by left|]. right.
    rewrite candidates_subject in *.
    destruct (subject_after_cases (before_body (lines_of text)) [])
      as [E0 | (l & Hin & Hl & E1)].
    + by rewrite E0 in E.
    + destruct (subject_line_inv _ Hl) as (p & t & Hp & ->).
      rewrite E1, take_subject_after in * by done.
      exists (p ++ t), p, t. split; [by apply before_body_subset|]. done.
  - intros Hk Hb Hi. unfold exec.
    by rewrite (handle_rewrite_success _ _ text).
Qed.

End Handlers.

(** ** Concrete sessions *)

Section Sessions.

Lemma missing_credential_aborts_witness :
  llm_calls (exec (handle_generate (fun _ => Some (lit "件名：X")))
               session_without_key) = [].
Proof.
  unfold exec.
  rewrite (proj1 (missing_credential_aborts (fun _ => Some (lit "件名：X"))
                    (lit "shorten") session_without_key eq_refl)).
  reflexivity.
Defined.

Lemma failure_keeps_session_state_witness :
  session_state (exec (handle_rewrite (fun _ => None) (lit "shorten"))
                   meeting_session)
  = session_state meeting_session.
Proof.
  apply (proj2 (failure_keeps_session_state (fun _ => None) (lit "shorten")
                  meeting_session)).
  right. right. reflexivity.
Defined.

Lemma parse_subject_never_empty_witness :
  session_state
    (exec (handle_rewrite (fun _ => Some reply_without_subject) (lit "shorten"))
       meeting_session)
  = <["body" := snd (parse_output reply_without_subject)]>
      (<["subject" := fst (parse_output reply_without_subject)]>
         (session_state meeting_session)).
Proof.
  apply (proj2 (proj2 (parse_subject_never_empty
                         (fun _ => Some reply_without_subject)
                         reply_without_subject (lit "shorten") meeting_session)));
    [vm_compute; reflexivity | vm_compute; reflexivity | reflexivity].
Defined.

(** C1.  In the scenario of the specification the stored subject does not
    remain "Meeting": the reply has no subject text, the parser's subject
    candidate is empty, [parse_output] puts the placeholder in its place,
    and [handle_rewrite] stores the placeholder.  The body is overwritten
    with the parsed body. *)
Theorem rewrite_replaces_subject_by_placeholder :
  let after :=
    exec (handle_rewrite (fun _ => Some reply_without_subject) (lit "shorten"))
      meeting_session in
  session_state meeting_session !! "subject" = Some (lit "Meeting")
  /\ fst (candidates reply_without_subject) = []
  /\ session_state after !! "subject" = Some (lit "（自動生成）")
  /\ session_state after !! "body" = Some (snd (parse_output reply_without_subject)).
Proof. vm_compute. repeat split. Qed.

End Sessions.

(** ** The session state: defaults and clearing *)

Section SessionState.

Implicit Types (w : World) (m : gmap string str) (k : string).

Lemma init_fold (l : list (string * str)) : forall m,
  fold_left (fun m kv => match m !! fst kv with
                         | Some _ => m
                         | None => <[fst kv := snd kv]> m
                         end) l m
  = m ∪ list_to_map l.
Proof.
  induction l as [|[k v] l IH]; intros m; simpl.
  - by rewrite (right_id ∅ (∪)).
  - rewrite IH. apply map_eq. intros j.
    destruct (m !! k) as [u|] eqn:Hk.
    + rewrite !lookup_union. destruct (decide (k = j)) as [<-|Hne].
      * by rewrite Hk, lookup_insert_eq, !(union_Some_l).
      * by rewrite lookup_insert_ne.
    + rewrite !lookup_union. destruct (decide (k = j)) as [<-|Hne].
      * rewrite !lookup_insert_eq, Hk.
        by destruct (list_to_map l !! k).
      * by rewrite !lookup_insert_ne.
Qed.

Lemma clear_keys_fold (ks : list string) : forall w,
  clear_keys ks w =
    (Ok tt, mkWorld (fold_left (fun m k => delete k m) ks (session_state w))
              (environ w) (warnings w) (errors w) (llm_calls w)).
Proof.
  induction ks as [|k ks IH]; intros w.
  - by destruct w.
  - cbn [clear_keys fold_left]. cbv [bind contains delitem ret].
    destruct (session_state w !! k) eqn:Hk.
    + rewrite Hk. by rewrite IH.
    + rewrite IH. by rewrite (delete_id _ _ Hk).
Qed.

Lemma delete_all_lookup (ks : list string) : forall m k,
  fold_left (fun m k => delete k m) ks m !! k
  = if decide (k ∈ ks) then None else m !! k.
Proof.
  induction ks as [|x ks IH]; intros m k; cbn [fold_left].
  - destruct (decide (k ∈ [])) as [H|_]; [by apply elem_of_nil in H | done].
  - rewrite IH.
    destruct (decide (k ∈ ks)) as [Hin|Hnin];
      destruct (decide (k ∈ x :: ks)) as [Hin'|Hnin']; try done.
    + exfalso. apply Hnin'. by constructor.
    + apply elem_of_cons in Hin' as [->|Hin']; [apply lookup_delete_eq | done].
    + apply lookup_delete_ne. intros ->. apply Hnin'. constructor.
Qed.

Lemma clear_keys_defaults : CLEAR_KEYS = (List.map fst defaults).
Proof. reflexivity. Qed.

Lemma default_state_lookup k :
  default_state !! k = None <-> k ∉ CLEAR_KEYS.
Proof.
  unfold default_state. rewrite clear_keys_defaults.
  symmetry. apply (not_elem_of_list_to_map (M := gmap string)).
Qed.

Lemma init_session_state_eq w :
  init_session_state w =
    (Ok tt, mkWorld (session_state w ∪ default_state) (environ w)
              (warnings w) (errors w) (llm_calls w)).
Proof.
  unfold init_session_state, default_state. by rewrite init_fold.
Qed.

(** X1.  [init_session_state] adds the default of every key that is
    missing and keeps every entry that is there; nothing else changes. *)
Theorem init_session_state_union w :
  init_session_state w =
    (Ok tt, mkWorld (session_state w ∪ default_state) (environ w)
              (warnings w) (errors w) (llm_calls w)).
Proof.
  unfold init_session_state, default_state. by rewrite init_fold.
Qed.

(** X2.  Running [init_session_state] a second time changes nothing. *)
Theorem init_session_state_idempotent w :
  exec init_session_state (exec init_session_state w)
  = exec init_session_state w.
Proof.
  unfold exec, init_session_state. cbn [snd session_state environ warnings
    errors llm_calls]. rewrite !init_fold. f_equal.
  by rewrite <- (assoc (∪)), (idemp (∪) (list_to_map defaults)).
Qed.

(** X3.  The loop of [handle_clear] never raises a [KeyError], whichever
    keys are there; [handle_clear] then leaves through [st.rerun()], having
    removed the seven form keys and nothing else: every other key, the
    environment, the errors and the calls to the model are as they were. *)
Theorem handle_clear_lookup w k :
  fst (clear_keys CLEAR_KEYS w) = Ok tt
  /\ fst (handle_clear w) = Raise
  /\ session_state (exec handle_clear w) !! k
     = (if decide (k ∈ CLEAR_KEYS) then None else session_state w !! k)
  /\ environ (exec handle_clear w) = environ w
  /\ errors (exec handle_clear w) = errors w
  /\ llm_calls (exec handle_clear w) = llm_calls w.
Proof.
  unfold exec, handle_clear, bind, st_rerun. rewrite clear_keys_fold.
  cbn [fst snd session_state environ errors llm_calls].
  by rewrite delete_all_lookup.
Qed.

(** X4.  Clearing and then initialising (what the run of the script that
    [st.rerun()] asks for does first) is a full reset of the form: the
    seven fields hold their defaults whatever they held before, and keys
    that are not form fields keep their values. *)
Theorem clear_then_init_resets w :
  session_state (exec init_session_state (exec handle_clear w))
  = default_state ∪ session_state w.
Proof.
  unfold exec, handle_clear, bind, st_rerun. rewrite clear_keys_fold.
  rewrite init_session_state_eq.
  cbn [snd session_state]. apply map_eq. intros k.
  rewrite !lookup_union, delete_all_lookup.
  destruct (decide (k ∈ CLEAR_KEYS)) as [Hin|Hnin].
  - destruct (default_state !! k) as [v|] eqn:E.
    + by rewrite union_Some_l.
    + by apply default_state_lookup in E.
  - apply default_state_lookup in Hnin. rewrite Hnin.
    by destruct (session_state w !! k).
Qed.

End SessionState.

(** ** The handlers, path by path *)

Section HandlerPaths.

Variable invoke : str -> option str.

Implicit Types (w : World) (instruction reply prompt ri : str) (k : string).

Lemma generate_with_llm_eq w :
  generate_with_llm invoke w =
    match generate_prompt w with
    | None => (Raise, w)
    | Some prompt =>
        (match invoke prompt with
         | Some reply => Ok (parse_output reply)
         | None => Raise
         end, called prompt w)
    end.
Proof.
  cbv [generate_with_llm bind getitem call_llm ret generate_prompt called].
  repeat (destruct (session_state w !! _); [|reflexivity]).
  by destruct (invoke _).
Qed.

Lemma handle_generate_missing_info w :
  falsy (environ w !! API_KEY) = false ->
  session_state w !! "required_info" = None ->
  handle_generate invoke w = (Raise, w).
Proof.
  intros Hk Hri. cbv [handle_generate bind getenv getitem]. fold API_KEY.
  by rewrite Hk, Hri.
Qed.

Lemma handle_generate_invalid w ri e :
  falsy (environ w !! API_KEY) = false ->
  session_state w !! "required_info" = Some ri ->
  fails_with e ri w ->
  handle_generate invoke w = (Ok tt, warned (warning_of e) w).
Proof.
  intros Hk Hri Hv. cbv [handle_generate bind getenv getitem]. fold API_KEY.
  rewrite Hk, Hri, Hv. reflexivity.
Qed.

Lemma handle_generate_run w ri :
  falsy (environ w !! API_KEY) = false ->
  session_state w !! "required_info" = Some ri ->
  succeeds ri w ->
  handle_generate invoke w =
    match generate_prompt w with
    | None => (Ok tt, failed msg_generate_failed w)
    | Some prompt =>
        match invoke prompt with
        | Some reply => (Ok tt, stored (parse_output reply) (called prompt w))
        | None => (Ok tt, failed msg_generate_failed (called prompt w))
        end
    end.
Proof.
  intros Hk Hri Hv.
  cbv [handle_generate bind getenv getitem try_except]. fold API_KEY.
  rewrite Hk, Hri, Hv. cbv [negb]. rewrite generate_with_llm_eq.
  destruct (generate_prompt w) as [prompt|]; [|reflexivity].
  destruct (invoke prompt) as [reply|]; [|reflexivity].
  cbv [ret]. by destruct (parse_output reply).
Qed.

Lemma handle_rewrite_run instruction w :
  falsy (environ w !! API_KEY) = false ->
  not_ (current_body w) = false ->
  handle_rewrite invoke instruction w =
    match invoke (rewrite_prompt instruction w) with
    | Some reply =>
        (Ok tt, stored (parse_output reply)
                  (called (rewrite_prompt instruction w) w))
    | None =>
        (Ok tt, failed msg_rewrite_failed
                  (called (rewrite_prompt instruction w) w))
    end.
Proof.
  intros Hk Hb.
  destruct (invoke (rewrite_prompt instruction w)) as [reply|] eqn:Hi.
  - by rewrite (handle_rewrite_success _ _ _ reply).
  - by rewrite handle_rewrite_gateway_error.
Qed.

(** The five ways [handle_generate] can go, and the three of
    [handle_rewrite]. *)
Lemma handle_generate_paths w :
  handle_generate invoke w = (Ok tt, warned msg_no_key w)
  \/ handle_generate invoke w = (Raise, w)
     /\ falsy (environ w !! API_KEY) = false
     /\ session_state w !! "required_info" = None
  \/ (exists e, handle_generate invoke w = (Ok tt, warned (warning_of e) w))
  \/ handle_generate invoke w = (Ok tt, failed msg_generate_failed w)
     /\ generate_prompt w = None
  \/ exists prompt, generate_prompt w = Some prompt
     /\ (handle_generate invoke w
           = (Ok tt, failed msg_generate_failed (called prompt w))
         \/ exists reply,
              handle_generate invoke w
              = (Ok tt, stored (parse_output reply) (called prompt w))).
Proof.
  destruct (falsy (environ w !! API_KEY)) eqn:Hk.
  { left. by apply handle_generate_no_key. }
  destruct (session_state w !! "required_info") as [ri|] eqn:Hri.
  2: { right. left. split; [|done]. by apply handle_generate_missing_info. }
  destruct (validate_inputs_cases ri w) as [Hv | [e Hv]].
  2: { right. right. left. exists e. by apply (handle_generate_invalid _ ri). }
  rewrite (handle_generate_run w ri Hk Hri Hv).
  destruct (generate_prompt w) as [prompt|].
  2: { right. right. right. left. done. }
  right. right. right. right. exists prompt. split; [done|].
  destruct (invoke prompt) as [reply|]; [right; by exists reply | by left].
Qed.

Lemma handle_rewrite_paths instruction w :
  handle_rewrite invoke instruction w = (Ok tt, warned msg_no_key w)
  \/ handle_rewrite invoke instruction w = (Ok tt, warned msg_empty_body w)
  \/ handle_rewrite invoke instruction w
     = (Ok tt, failed msg_rewrite_failed
                 (called (rewrite_prompt instruction w) w))
  \/ exists reply,
       handle_rewrite invoke instruction w
       = (Ok tt, stored (parse_output reply)
                   (called (rewrite_prompt instruction w) w)).
Proof.
  destruct (falsy (environ w !! API_KEY)) eqn:Hk.
  { left. by apply handle_rewrite_no_key. }
  destruct (not_ (current_body w)) eqn:Hb.
  { right. left. by apply handle_rewrite_empty_body. }
  rewrite (handle_rewrite_run _ _ Hk Hb).
  destruct (invoke _) as [reply|].
  - right. right. right. by exists reply.
  - right. right. by left.
Qed.

(** X5.  [handle_rewrite] never raises: whatever the session, the
    environment and the model do, it returns normally. *)
Theorem handle_rewrite_never_raises instruction w :
  fst (handle_rewrite invoke instruction w) = Ok tt.
Proof.
  destruct (handle_rewrite_paths instruction w)
    as [E | [E | [E | [reply E]]]]; by rewrite E.
Qed.

Lemma handle_generate_raises_iff_aux w :
  (fst (handle_generate invoke w) = Raise
   <-> falsy (environ w !! API_KEY) = false
       /\ session_state w !! "required_info" = None)
  /\ (fst (handle_generate invoke w) = Raise
      \/ fst (handle_generate invoke w) = Ok tt).
Proof.
  pose proof (handle_generate_paths w)
    as [E | [(E & Hk & Hri) | [[e E] | [[E _] | (prompt & _ & [E | [reply E]])]]]].
  all: split; [split|].
  all: try (intros [Hk' Hri']; by rewrite handle_generate_missing_info).
  all: try (rewrite E; cbn [fst]; by auto).
  all: rewrite E; cbn [fst]; try discriminate.
Qed.

(** X6.  [handle_generate] raises in exactly one situation: the credential
    is set and the session state has no "required_info" entry (the
    [KeyError] of the lookup in front of the [try]).  In every other
    situation it returns normally. *)
Theorem handle_generate_raises_iff w :
  (fst (handle_generate invoke w) = Raise
   <-> falsy (environ w !! API_KEY) = false
       /\ session_state w !! "required_info" = None)
  /\ (fst (handle_generate invoke w) = Raise
      \/ fst (handle_generate invoke w) = Ok tt).
Proof. apply handle_generate_raises_iff_aux. Qed.

(** X7.  After [init_session_state] has run, [handle_generate] cannot
    raise: the entry it looks up in front of the [try] is there. *)
Theorem init_then_generate_returns w :
  fst (handle_generate invoke (exec init_session_state w)) = Ok tt.
Proof.
  destruct (proj2 (handle_generate_raises_iff_aux (exec init_session_state w)))
    as [H|H]; [|done].
  apply handle_generate_raises_iff_aux in H as [_ H].
  unfold exec in H. rewrite init_session_state_eq in H. cbn [snd session_state] in H.
  apply lookup_union_None in H as [_ H]. vm_compute in H. discriminate H.
Qed.

(** X8.  When the required info does not pass validation, [handle_generate]
    shows the one warning of the validation and nothing else happens: no
    prompt goes to the model, no error is shown, the session state stays. *)
Theorem handle_generate_invalid_no_call w ri :
  falsy (environ w !! API_KEY) = false ->
  session_state w !! "required_info" = Some ri ->
  fst (validate_inputs ri w) = Ok false ->
  exists e, handle_generate invoke w = (Ok tt, warned (warning_of e) w)
            /\ llm_calls (warned (warning_of e) w) = llm_calls w
            /\ warnings (warned (warning_of e) w) = warnings w ++ [warning_of e].
Proof.
  intros Hk Hri Hv.
  destruct (validate_inputs_cases ri w) as [E | [e E]].
  - unfold succeeds in E. rewrite E in Hv. discriminate Hv.
  - exists e. split; [|done]. by apply (handle_generate_invalid _ ri).
Qed.

(** X9.  When the stored body is empty or white space only,
    [handle_rewrite] shows the empty-body warning and returns: no prompt
    goes to the model, no error is shown, the session state stays. *)
Theorem handle_rewrite_empty_body_no_call instruction w :
  falsy (environ w !! API_KEY) = false ->
  allspace (default [] (session_state w !! "body")) ->
  handle_rewrite invoke instruction w = (Ok tt, warned msg_empty_body w)
  /\ llm_calls (warned msg_empty_body w) = llm_calls w.
Proof.
  intros Hk Hb. split; [|done]. apply handle_rewrite_empty_body; [done|].
  unfold current_body. by rewrite (proj2 (strip_nil _) Hb).
Qed.

(** X10.  Neither handler writes anything but the "subject" and "body"
    entries of the session state, and neither touches the environment. *)
Theorem handlers_write_only_subject_and_body instruction w k :
  k <> "subject"%string -> k <> "body"%string ->
  session_state (exec (handle_generate invoke) w) !! k = session_state w !! k
  /\ session_state (exec (handle_rewrite invoke instruction) w) !! k
     = session_state w !! k
  /\ environ (exec (handle_generate invoke) w) = environ w
  /\ environ (exec (handle_rewrite invoke instruction) w) = environ w.
Proof.
  intros Hs Hb. unfold exec.
  assert (forall p prompt,
            session_state (stored p (called prompt w)) !! k
            = session_state w !! k) as Hst.
  { intros p prompt. unfold stored. cbn [session_state].
    by rewrite !lookup_insert_ne. }
  destruct (handle_generate_paths w)
    as [E | [(E & _) | [[e E] | [[E _] | (prompt & _ & [E | [reply E]])]]]];
  destruct (handle_rewrite_paths instruction w)
    as [E' | [E' | [E' | [reply' E']]]];
  rewrite E, E'; cbn [snd]; repeat split; try reflexivity; apply Hst.
Qed.

(** X11.  Each handler hands at most one prompt to the model, and it is
    the prompt built from the session state: the generate prompt of the
    five form fields, or the rewrite prompt of the stored subject and
    body. *)
Theorem handlers_call_at_most_once instruction w :
  (llm_calls (exec (handle_generate invoke) w) = llm_calls w
   \/ exists prompt, generate_prompt w = Some prompt
        /\ llm_calls (exec (handle_generate invoke) w) = llm_calls w ++ [prompt])
  /\ (llm_calls (exec (handle_rewrite invoke instruction) w) = llm_calls w
      \/ llm_calls (exec (handle_rewrite invoke instruction) w)
         = llm_calls w ++ [rewrite_prompt instruction w]).
Proof.
  unfold exec. split.
  - destruct (handle_generate_paths w)
      as [E | [(E & _) | [[e E] | [[E _] | (prompt & Hp & [E | [reply E]])]]]];
      rewrite E; cbn [snd]; try (by left); right; by exists prompt.
  - destruct (handle_rewrite_paths instruction w)
      as [E | [E | [E | [reply E]]]]; rewrite E; cbn [snd]; by auto.
Qed.

(** X12.  Once the credential is there and the required info is valid,
    [handle_generate] ends in one of three ways.  A form field missing from
    the session state is reported as a failed generation without a call to
    the model; a failing call is reported the same way; a reply is parsed
    and stored as subject and body, with no message shown. *)
Theorem handle_generate_outcome w ri :
  falsy (environ w !! API_KEY) = false ->
  session_state w !! "required_info" = Some ri ->
  fst (validate_inputs ri w) = Ok true ->
  handle_generate invoke w =
    match generate_prompt w with
    | None => (Ok tt, failed msg_generate_failed w)
    | Some prompt =>
        match invoke prompt with
        | Some reply => (Ok tt, stored (parse_output reply) (called prompt w))
        | None => (Ok tt, failed msg_generate_failed (called prompt w))
        end
    end.
Proof.
  intros Hk Hri Hv. apply (handle_generate_run w ri); try done.
  by apply validate_inputs_true.
Qed.

(** X13.  Once the credential is there and the stored body is not empty,
    [handle_rewrite] sends the rewrite prompt; a failing call is reported
    with the one generic error and the session state stays, a reply is
    parsed and stored as subject and body. *)
Theorem handle_rewrite_outcome instruction w :
  falsy (environ w !! API_KEY) = false ->
  not_ (current_body w) = false ->
  handle_rewrite invoke instruction w =
    match invoke (rewrite_prompt instruction w) with
    | Some reply =>
        (Ok tt, stored (parse_output reply)
                  (called (rewrite_prompt instruction w) w))
    | None =>
        (Ok tt, failed msg_rewrite_failed
                  (called (rewrite_prompt instruction w) w))
    end.
Proof. apply handle_rewrite_run. Qed.

End HandlerPaths.

(** ** Blank text, lines and joins *)

Section Lines.

Implicit Types (s t l : str) (c : char) (ls : list str).

Lemma islinebreak_isspace c : islinebreak c = true -> isspace c = true.
Proof.
  unfold islinebreak, isspace.
  rewrite !orb_true_iff, !andb_true_iff, !N.leb_le, !N.eqb_eq. lia.
Qed.

(** [splitlines] drops the line boundaries and nothing else. *)
Lemma concat_splitlines s :
  concat (splitlines s) = List.filter (fun c => negb (islinebreak c)) s.
Proof.
  induction s as [|c s IH1 IH2] using list_ind_two; [done|].
  cbn [splitlines List.filter]. destruct (islinebreak c) eqn:Ec; cbn [negb].
  - cbn [concat app]. destruct (c =? CR); [|done].
    destruct s as [|d s']; [done|].
    destruct (d =? LF) eqn:Ed; [|done].
    apply N.eqb_eq in Ed as ->. cbn [List.filter]. 
    replace (islinebreak LF) with true by reflexivity. cbn [negb].
    by apply (IH2 LF).
  - rewrite <- IH1. by destruct (splitlines s).
Qed.

Lemma allspace_splitlines s : allspace s <-> Forall allspace (splitlines s).
Proof.
  change (Forall allspace (splitlines s))
    with (Forall (Forall (fun c => isspace c = true)) (splitlines s)).
  unfold allspace. rewrite <- Forall_concat, concat_splitlines.
  induction s as [|c s IH]; [done|]. cbn [List.filter].
  destruct (islinebreak c) eqn:Ec; cbn [negb]; rewrite !Forall_cons, ?IH.
  - apply islinebreak_isspace in Ec. tauto.
  - tauto.
Qed.

Lemma lines_of_blank s :
  allspace s <-> Forall (fun l => l = []) (lines_of s).
Proof.
  rewrite allspace_splitlines. unfold lines_of. rewrite Forall_map.
  apply Forall_iff. intros l. simpl. by rewrite strip_nil.
Qed.

Lemma bullets_eq ls :
  bullets ls = List.map bulleted (List.filter (fun l => negb (not_ l)) ls).
Proof.
  induction ls as [|l ls IH]; [done|].
  rewrite bullets_cons. cbn [List.filter].
  destruct (not_ l); cbn [negb]; [done|]. cbn [List.map]. unfold bulleted at 1.
  rewrite IH. by destruct (startswith bullet l).
Qed.

Lemma bullets_nil ls : bullets ls = [] <-> Forall (fun l => l = []) ls.
Proof.
  induction ls as [|l ls IH]; [by split; [constructor|]|].
  rewrite bullets_cons, Forall_cons. destruct l as [|c l]; cbn [not_].
  - rewrite IH. tauto.
  - split; [by destruct (startswith bullet (c :: l)) | by intros [? _]].
Qed.

Lemma splitlines_nil s : splitlines s = [] -> s = [].
Proof.
  destruct s as [|c s]; [done|]. cbn [splitlines].
  destruct (islinebreak c); [done|]. by destruct (splitlines s).
Qed.

Lemma join_nil ls :
  Forall (fun l => not_ l = false) ls -> join nl ls = [] -> ls = [].
Proof.
  destruct 1 as [|l ls Hl _]; [done|].
  destruct l as [|c l]; [done|]. by destruct ls.
Qed.

Lemma join_cons_cons l l' ls :
  join nl (l :: l' :: ls) = l ++ LF :: join nl (l' :: ls).
Proof. reflexivity. Qed.

(** A text whose last line is not empty is cut back into its lines. *)
Lemma splitlines_join_last ls d :
  Forall nolb ls -> not_ (List.last ls d) = false ->
  splitlines (join nl ls) = ls.
Proof.
  induction 1 as [|l ls Hl Hls IH]; [done|]. intros Hlast.
  destruct ls as [|l' ls'].
  - apply splitlines_last; [done|]. by apply not_false_ne.
  - rewrite join_cons_cons, splitlines_line by done. f_equal. by apply IH.
Qed.

Lemma join_head l ls : not_ l = false -> head_ok (join nl (l :: ls)) = head_ok l.
Proof.
  intros Hl. destruct ls; [done|].
  rewrite join_cons_cons. apply head_ok_app. by apply not_false_ne.
Qed.

Lemma join_last ls d :
  ls <> [] -> exists k, join nl ls = k ++ List.last ls d /\ List.last ls d ∈ ls.
Proof.
  induction ls as [|l ls IH]; [done|]. intros _.
  destruct ls as [|l' ls'].
  - exists []. split; [done | constructor].
  - destruct IH as (k & Hk & Hin); [done|]. exists (l ++ LF :: k).
    change (List.last (l :: l' :: ls') d) with (List.last (l' :: ls') d).
    split; [|by constructor].
    rewrite join_cons_cons, Hk. by rewrite <- app_assoc.
Qed.

Lemma trimmed_join ls d :
  Forall trimmed ls ->
  not_ (hd [] ls) = false -> not_ (List.last ls d) = false ->
  trimmed (join nl ls).
Proof.
  intros Hls Hhd Hlast. destruct ls as [|l ls]; [done|].
  split.
  - rewrite join_head by done. by apply Forall_cons_1 in Hls as [[? _] _].
  - destruct (join_last (l :: ls) d) as (k & Hk & Hin); [done|].
    revert Hlast Hk Hin. generalize (List.last (l :: ls) d).
    intros x Hlast Hk Hin. rewrite Hk, rev_app_distr, head_ok_app.
    + rewrite Forall_forall in Hls. by destruct (Hls _ Hin).
    + intros E. apply (f_equal (@rev _)) in E. rewrite rev_involutive in E.
      by subst x.
Qed.

(** X14.  The output of [normalize_bullets] has exactly the non-blank
    lines of the input, in their order, each stripped and given the bullet
    marker unless it has it already. *)
Theorem normalize_bullets_lines (text : str) :
  splitlines (normalize_bullets text)
  = List.map bulleted
      (List.filter (fun l => negb (not_ l)) (List.map strip (splitlines text))).
Proof. by rewrite normalized_lines, bullets_eq. Qed.

Lemma normalize_bullets_nil (text : str) :
  normalize_bullets text = [] <-> strip text = [].
Proof.
  rewrite strip_nil, lines_of_blank, <- bullets_nil. unfold lines_of.
  split.
  - intros H. apply (join_nil _ (Forall_impl _ _ _
      (bullets_lines _ (stripped_lines text)) (fun l H => proj1 (proj2 (proj2 H))))).
    exact H.
  - unfold normalize_bullets. by intros ->.
Qed.

(** X15.  [normalize_bullets] returns the empty string exactly for the
    texts that are empty or white space only. *)
Theorem normalize_bullets_empty_iff (text : str) :
  normalize_bullets text = [] <-> strip text = [].
Proof.
  split; intros H.
  - by apply normalize_bullets_nil.
  - by apply normalize_bullets_nil.
Qed.

(** X16.  A required info that passes [validate_inputs] never normalises
    to the empty string: the prompt of [generate_with_llm] always carries
    at least one bullet line. *)
Theorem valid_required_info_has_bullets (ri : str) (w : World) :
  fst (validate_inputs ri w) = Ok true ->
  not_ (normalize_bullets (strip ri)) = false
  /\ splitlines (normalize_bullets (strip ri)) <> [].
Proof.
  intros Hv.
  assert (strip ri <> []) as Hne.
  { intros E. unfold validate_inputs in Hv. rewrite E in Hv.
    cbv [not_ bind st_warning ret fst] in Hv. discriminate Hv. }
  assert (normalize_bullets (strip ri) <> []) as Hn.
  { rewrite normalize_bullets_nil, strip_idemp. exact Hne. }
  split.
  - by destruct (normalize_bullets (strip ri)).
  - intros E. apply Hn. by apply splitlines_nil.
Qed.

End Lines.

(** ** More on the reply parser *)

Section ParseMore.

Implicit Types (text l s t : str) (ls : list str) (w : World).

Lemma body_prefixes_inv (p : str) :
  p ∈ body_prefixes -> p = lit "本文：" \/ p = lit "本文:".
Proof.
  unfold body_prefixes. intros H.
  apply elem_of_cons in H as [->|H]; [by left|].
  apply elem_of_cons in H as [->|H]; [by right|].
  by apply elem_of_nil in H.
Qed.

Lemma lines_of_stripped text :
  Forall (fun l => nolb l /\ trimmed l) (lines_of text).
Proof. apply stripped_lines. Qed.

(** The subject candidate is empty or what follows the marker on one of
    the lines. *)
Lemma subject_candidate_cases text :
  fst (candidates text) = []
  \/ exists p t, p ∈ subject_prefixes /\ p ++ t ∈ lines_of text
       /\ fst (candidates text) = strip t.
Proof.
  rewrite candidates_subject.
  destruct (subject_after_cases (before_body (lines_of text)) [])
    as [E | (l & Hin & Hl & E)]; [by left|]. right.
  destruct (subject_line_inv _ Hl) as (p & t & Hp & ->).
  exists p, t. split; [done|]. split; [by apply before_body_subset|].
  by rewrite E, take_subject_after.
Qed.

Lemma blank_candidates text :
  strip text = [] -> candidates text = ([], []).
Proof.
  intros H. apply strip_nil, lines_of_blank in H.
  assert (Forall (fun l => is_body_line l = false) (lines_of text)) as Hb.
  { eapply Forall_impl; [exact H|]. by intros l ->. }
  assert (Forall (fun l => is_subject_line l = false) (lines_of text)) as Hs.
  { eapply Forall_impl; [exact H|]. by intros l ->. }
  assert (before_body (lines_of text) = lines_of text) as E.
  { clear H Hs. induction Hb as [|l ls Hl _ IH]; [done|].
    cbn [before_body]. by rewrite Hl, IH. }
  rewrite candidates_no_body by done. by rewrite subject_after_plain.
Qed.

(** X17.  What [parse_output] returns is tidy: the subject has no white
    space at either end and no line boundary inside, and the body has no
    white space at either end. *)
Theorem parse_output_tidy text :
  trimmed (fst (parse_output text))
  /\ nolb (fst (parse_output text))
  /\ trimmed (snd (parse_output text)).
Proof.
  assert (trimmed (snd (candidates text))) as Hbody.
  { rewrite candidates_body_part.
    destruct (after_body (lines_of text)); [apply strip_trimmed | done]. }
  rewrite parse_output_eq.
  destruct (not_ (fst (candidates text))) eqn:Hs; cbn [fst snd].
  { split; [done|]. split; [by repeat constructor | apply strip_trimmed]. }
  assert (trimmed (fst (candidates text)) /\ nolb (fst (candidates text)))
    as [Ht Hn].
  { destruct (subject_candidate_cases text) as [E | (p & t & Hp & Hin & E)].
    - by rewrite E in Hs.
    - rewrite E. split; [apply strip_trimmed|]. apply strip_nolb.
      pose proof (lines_of_stripped text) as Hl.
      rewrite Forall_forall in Hl. destruct (Hl _ Hin) as [Hlb _].
      by apply Forall_app in Hlb as [_ ?]. }
  destruct (not_ (snd (candidates text))); cbn [fst snd];
    (split; [done|]); (split; [done|]); [apply strip_trimmed | done].
Qed.

(** X18.  A reply in the format the prompts ask for is split into its
    parts: a subject line made of a subject marker and a one-line subject,
    a body-marker line, and body lines, all without surrounding white
    space, with a non-empty subject and non-empty first and last body
    lines, parse to exactly that subject and that body. *)
Theorem parse_formatted_reply (ms mb subject : str) (body_lines : list str) :
  ms ∈ subject_prefixes -> mb ∈ body_prefixes ->
  nolb subject -> trimmed subject -> not_ subject = false ->
  Forall (fun l => nolb l /\ trimmed l) body_lines ->
  not_ (hd [] body_lines) = false ->
  not_ (List.last body_lines []) = false ->
  parse_output (join nl ((ms ++ subject) :: mb :: body_lines))
  = (subject, join nl body_lines).
Proof.
  intros Hms Hmb Hsn Hst Hse Hbody Hhd Hlast.
  assert (nolb ms /\ head_ok ms = true /\ ms <> []) as (Hmsn & Hmsh & Hmse).
  { apply subject_prefixes_inv in Hms as [-> | ->];
      (split; [by repeat constructor | done]). }
  assert (nolb mb /\ trimmed mb /\ is_body_line mb = true) as (Hmbn & Hmbt & Hmbb).
  { apply body_prefixes_inv in Hmb as [-> | ->];
      (split; [by repeat constructor | done]). }
  assert (Forall nolb body_lines) as Hbn.
  { eapply Forall_impl; [exact Hbody|]. by intros l [? _]. }
  assert (Forall trimmed body_lines) as Hbt.
  { eapply Forall_impl; [exact Hbody|]. by intros l [_ ?]. }
  assert (trimmed (ms ++ subject)) as Hsubj.
  { apply trimmed_prefixed; try done. by apply not_false_ne. }
  assert (lines_of (join nl ((ms ++ subject) :: mb :: body_lines))
          = (ms ++ subject) :: mb :: body_lines) as Hlines.
  { unfold lines_of. rewrite (splitlines_join_last _ []).
    - cbn [List.map]. rewrite !trimmed_strip by done. do 2 f_equal.
      clear -Hbt. induction Hbt as [|l ls Hl _ IH]; [done|].
      cbn [List.map]. by rewrite IH, trimmed_strip.
    - constructor; [by apply Forall_app|]. by constructor.
    - destruct body_lines as [|l ls]; [done|]. exact Hlast. }
  rewrite parse_output_eq.
  rewrite (candidates_body _ [ms ++ subject] mb body_lines Hlines).
  - cbn [fst snd subject_after fold_left]. unfold subject_step.
    replace (is_subject_line (ms ++ subject)) with true.
    2: { symmetry. unfold is_subject_line, startswith_any.
         apply existsb_exists. exists ms.
         split; [by apply list_elem_of_In | apply startswith_app]. }
    rewrite take_subject_after, (trimmed_strip subject) by done. rewrite Hse.
    rewrite (trimmed_strip (join nl body_lines))
      by (by apply (trimmed_join _ [])).
    destruct body_lines as [|l ls]; [done|].
    destruct l as [|c l]; [done|]. by destruct ls.
  - constructor; [|constructor]. apply subject_not_body.
    unfold is_subject_line, startswith_any. apply existsb_exists. exists ms.
    split; [by apply list_elem_of_In | apply startswith_app].
  - done.
Qed.

(** X19.  The body [parse_output] returns is empty exactly when the reply
    is empty or white space only, and the result is then the placeholder
    subject with the empty body. *)
Theorem parse_body_empty_iff text :
  (snd (parse_output text) = [] <-> strip text = [])
  /\ (strip text = [] -> parse_output text = (placeholder, [])).
Proof.
  assert (strip text = [] -> parse_output text = (placeholder, [])) as Hblank.
  { intros H. rewrite parse_output_eq, (blank_candidates _ H). cbn [fst not_].
    by rewrite H. }
  split; [|done]. split.
  - rewrite parse_output_eq.
    destruct (not_ (fst (candidates text))); [done|].
    destruct (not_ (snd (candidates text))) eqn:E; [done|].
    intros H. by rewrite H in E.
  - intros H. by rewrite Hblank.
Qed.

(** X20.  What a handler has stored is what the next [handle_rewrite]
    reads: stripping the stored subject and body changes nothing, so the
    rewrite prompt carries the parsed subject and body as they are; and the
    next rewrite is turned away for an empty body exactly when the reply
    was blank. *)
Theorem rewrite_reads_back_stored (reply instruction : str) w :
  current_subject (stored (parse_output reply) w) = fst (parse_output reply)
  /\ current_body (stored (parse_output reply) w) = snd (parse_output reply)
  /\ (not_ (current_body (stored (parse_output reply) w)) = true
      <-> strip reply = []).
Proof.
  assert (current_subject (stored (parse_output reply) w)
          = fst (parse_output reply)) as Hs.
  { unfold current_subject, stored. cbn [session_state].
    rewrite lookup_insert_ne by done. rewrite lookup_insert_eq. cbn [default].
    apply trimmed_strip. 
    destruct (subject_candidate_cases reply) as [E | (p & t & _ & _ & E)];
      rewrite parse_output_subject, E; cbn [not_]; [done|].
    destruct (not_ (strip t)); [done | apply strip_trimmed]. }
  assert (trimmed (snd (parse_output reply))) as Ht.
  { rewrite parse_output_eq.
    destruct (not_ (fst (candidates reply))); [apply strip_trimmed|].
    destruct (not_ (snd (candidates reply))); [apply strip_trimmed|].
    rewrite candidates_body_part.
    destruct (after_body (lines_of reply)); [apply strip_trimmed | done]. }
  assert (current_body (stored (parse_output reply) w)
          = snd (parse_output reply)) as Hb.
  { unfold current_body, stored. cbn [session_state].
    rewrite lookup_insert_eq. cbn [default]. by apply trimmed_strip. }
  split; [done|]. split; [done|]. rewrite Hb.
  assert (snd (parse_output reply) = [] <-> strip reply = []) as <-.
  { split.
    - rewrite parse_output_eq.
      destruct (not_ (fst (candidates reply))); [done|].
      destruct (not_ (snd (candidates reply))) eqn:E; [done|].
      intros H. by rewrite H in E.
    - intros H. rewrite parse_output_eq, (blank_candidates _ H).
      cbn [fst not_]. by rewrite H. }
  by destruct (snd (parse_output reply)).
Qed.

End ParseMore.

(** ** Validation, once more *)

Section ValidationMore.

Implicit Types (s : str) (w : World).

(** X21.  [validate_inputs] never raises; it returns [True] exactly when
    the stripped text is not empty and the raw length is between 10 and
    4000, and then it shows nothing and leaves the world as it was. *)
Theorem validate_inputs_accepts_iff s w :
  (fst (validate_inputs s w) = Ok true
   <-> not_ (strip s) = false /\ (10 <= length s <= 4000)%nat)
  /\ (fst (validate_inputs s w) = Ok true -> snd (validate_inputs s w) = w)
  /\ (fst (validate_inputs s w) = Ok true \/ fst (validate_inputs s w) = Ok false).
Proof.
  unfold validate_inputs.
  destruct (not_ (strip s)) eqn:Hs.
  { cbv [bind st_warning ret fst snd].
    split; [split; [discriminate | by intros [? _]]|]. split; [discriminate | by right]. }
  destruct (Nat.ltb_spec (length s) 10) as [H1|H1].
  { cbv [bind st_warning ret fst snd].
    split; [split; [discriminate | intros [_ ?]; lia]|].
    split; [discriminate | by right]. }
  destruct (Nat.ltb_spec 4000 (length s)) as [H2|H2].
  { cbv [bind st_warning ret fst snd].
    split; [split; [discriminate | intros [_ ?]; lia]|].
    split; [discriminate | by right]. }
  cbv [ret fst snd]. split; [split; [intros _; split; [done | lia] | done]|].
  split; [done | by left].
Qed.

End ValidationMore.

(** ** The properties on concrete sessions *)

Section MoreSessions.

Lemma handle_generate_invalid_no_call_witness :
  exists e,
    handle_generate (fun _ => None) short_info_session
    = (Ok tt, warned (warning_of e) short_info_session)
    /\ llm_calls (warned (warning_of e) short_info_session)
       = llm_calls short_info_session
    /\ warnings (warned (warning_of e) short_info_session)
       = warnings short_info_session ++ [warning_of e].
Proof.
  apply (handle_generate_invalid_no_call (fun _ => None) short_info_session
           (lit "abc")); vm_compute; reflexivity.
Defined.

Lemma handle_rewrite_empty_body_no_call_witness :
  handle_rewrite (fun _ => None) (lit "shorten") blank_body_session
  = (Ok tt, warned msg_empty_body blank_body_session)
  /\ llm_calls (warned msg_empty_body blank_body_session)
     = llm_calls blank_body_session.
Proof.
  apply (handle_rewrite_empty_body_no_call (fun _ => None) (lit "shorten")
           blank_body_session).
  - vm_compute. reflexivity.
  - vm_compute. repeat constructor.
Defined.

Lemma handlers_write_only_subject_and_body_witness :
  session_state
    (exec (handle_rewrite (fun _ => Some reply_without_subject) (lit "shorten"))
       meeting_session) !! "tone"
  = session_state meeting_session !! "tone".
Proof.
  apply (handlers_write_only_subject_and_body
           (fun _ => Some reply_without_subject) (lit "shorten")
           meeting_session "tone"); discriminate.
Defined.

Lemma handle_generate_outcome_witness :
  handle_generate (fun _ => Some reply_without_subject) valid_info_session
  = match generate_prompt valid_info_session with
    | None => (Ok tt, failed msg_generate_failed valid_info_session)
    | Some prompt =>
        (Ok tt, stored (parse_output reply_without_subject)
                  (called prompt valid_info_session))
    end.
Proof.
  apply (handle_generate_outcome (fun _ => Some reply_without_subject)
           valid_info_session (lit "send the report by Friday"));
    vm_compute; reflexivity.
Defined.

Lemma handle_rewrite_outcome_witness :
  handle_rewrite (fun _ => None) (lit "shorten") meeting_session
  = (Ok tt, failed msg_rewrite_failed
              (called (rewrite_prompt (lit "shorten") meeting_session)
                 meeting_session)).
Proof.
  apply (handle_rewrite_outcome (fun _ => None) (lit "shorten") meeting_session);
    vm_compute; reflexivity.
Defined.

Lemma valid_required_info_has_bullets_witness :
  not_ (normalize_bullets (strip (lit "send the report by Friday"))) = false
  /\ splitlines (normalize_bullets (strip (lit "send the report by Friday")))
     <> [].
Proof.
  apply (valid_required_info_has_bullets (lit "send the report by Friday")
           empty_world).
  vm_compute. reflexivity.
Defined.

Lemma parse_formatted_reply_witness :
  parse_output
    (join nl [lit "件名：" ++ lit "Hello"; lit "本文：";
              lit "Line one"; []; lit "Line two"])
  = (lit "Hello", join nl [lit "Line one"; []; lit "Line two"]).
Proof.
  apply (parse_formatted_reply (lit "件名：") (lit "本文：") (lit "Hello")
           [lit "Line one"; []; lit "Line two"]).
  - vm_compute. constructor.
  - vm_compute. constructor.
  - vm_compute. repeat constructor.
  - vm_compute. by split.
  - reflexivity.
  - vm_compute. repeat constructor.
  - reflexivity.
  - reflexivity.
Defined.

End MoreSessions.
